(** * Organisation-list recovery: [scripts/extract-ministry-from-ichiran.py]

    A shallow embedding of the text-structure recovery of
    [extract-ministry-from-ichiran.py]: page merging, continuation-line
    joining, line normalisation, the block classifier with its
    angle-bracket expansion and sibling carry-over, de-duplication and the
    alias pass.

    Python strings are sequences of Unicode code points, so a string is a
    [list N]; literals are written in UTF-8 and decoded by [u].  The
    regular expressions of the script are kept as syntax trees and run by
    a small backtracking matcher with the priorities of Python's [re]
    module.  Python exceptions are the [Raise] results of a small error
    monad. *)

From Stdlib Require Import NArith ZArith String Ascii Lia.
From stdpp Require Import base list gmap sets.

Local Open Scope N_scope.

(** ** Unicode strings *)

Definition str := list N.

Module Ustr.

(** UTF-8 decoding, used only to write literals. *)
Definition cont (b : N) : N := N.land b 63.

Fixpoint decode (bs : list N) : str :=
  match bs with
  | [] => []
  | b0 :: r0 =>
    if b0 <? 128 then b0 :: decode r0
    else if b0 <? 224 then
      match r0 with
      | b1 :: r1 => (N.shiftl (N.land b0 31) 6 + cont b1) :: decode r1
      | _ => []
      end
    else if b0 <? 240 then
      match r0 with
      | b1 :: b2 :: r2 =>
        (N.shiftl (N.land b0 15) 12 + N.shiftl (cont b1) 6 + cont b2) :: decode r2
      | _ => []
      end
    else
      match r0 with
      | b1 :: b2 :: b3 :: r3 =>
        (N.shiftl (N.land b0 7) 18 + N.shiftl (cont b1) 12
         + N.shiftl (cont b2) 6 + cont b3) :: decode r3
      | _ => []
      end
  end.

Definition of_string (s : string) : str :=
  decode (List.map N_of_ascii (list_ascii_of_string s)).

Definition in_ranges (rs : list (N * N)) (c : N) : bool :=
  List.existsb (fun r => (fst r <=? c) && (c <=? snd r)) rs.

(** [str.isspace]: the characters [str.strip] removes and [\s] matches. *)
Definition space_ranges : list (N * N) :=
  [ (0x9, 0xd); (0x1c, 0x20); (0x85, 0x85); (0xa0, 0xa0); (0x1680, 0x1680);
    (0x2000, 0x200a); (0x2028, 0x2029); (0x202f, 0x202f); (0x205f, 0x205f);
    (0x3000, 0x3000) ].

Definition is_space : N -> bool := in_ranges space_ranges.

(** Unicode decimal digits (general category Nd, Unicode 14): [\d]. *)
Definition digit_ranges : list (N * N) :=
  [ (0x30, 0x39); (0x660, 0x669); (0x6f0, 0x6f9); (0x7c0, 0x7c9);
    (0x966, 0x96f); (0x9e6, 0x9ef); (0xa66, 0xa6f); (0xae6, 0xaef);
    (0xb66, 0xb6f); (0xbe6, 0xbef); (0xc66, 0xc6f); (0xce6, 0xcef);
    (0xd66, 0xd6f); (0xde6, 0xdef); (0xe50, 0xe59); (0xed0, 0xed9);
    (0xf20, 0xf29); (0x1040, 0x1049); (0x1090, 0x1099); (0x17e0, 0x17e9);
    (0x1810, 0x1819); (0x1946, 0x194f); (0x19d0, 0x19d9); (0x1a80, 0x1a89);
    (0x1a90, 0x1a99); (0x1b50, 0x1b59); (0x1bb0, 0x1bb9); (0x1c40, 0x1c49);
    (0x1c50, 0x1c59); (0xa620, 0xa629); (0xa8d0, 0xa8d9); (0xa900, 0xa909);
    (0xa9d0, 0xa9d9); (0xa9f0, 0xa9f9); (0xaa50, 0xaa59); (0xabf0, 0xabf9);
    (0xff10, 0xff19); (0x104a0, 0x104a9); (0x10d30, 0x10d39);
    (0x11066, 0x1106f); (0x110f0, 0x110f9); (0x11136, 0x1113f);
    (0x111d0, 0x111d9); (0x112f0, 0x112f9); (0x11450, 0x11459);
    (0x114d0, 0x114d9); (0x11650, 0x11659); (0x116c0, 0x116c9);
    (0x11730, 0x11739); (0x118e0, 0x118e9); (0x11950, 0x11959);
    (0x11c50, 0x11c59); (0x11d50, 0x11d59); (0x11da0, 0x11da9);
    (0x16a60, 0x16a69); (0x16ac0, 0x16ac9); (0x16b50, 0x16b59);
    (0x1d7ce, 0x1d7ff); (0x1e140, 0x1e149); (0x1e2f0, 0x1e2f9);
    (0x1e950, 0x1e959); (0x1fbf0, 0x1fbf9) ].

Definition is_digit : N -> bool := in_ranges digit_ranges.

Definition mem (c : N) (s : str) : bool := List.existsb (N.eqb c) s.

Fixpoint eqb (a b : str) : bool :=
  match a, b with
  | [], [] => true
  | x :: a', y :: b' => (x =? y) && eqb a' b'
  | _, _ => false
  end.

(** Truth value of a string: non-empty. *)
Definition truthy (s : str) : bool :=
  match s with [] => false | _ => true end.

Fixpoint lstrip (s : str) : str :=
  match s with
  | c :: s' => if is_space c then lstrip s' else s
  | [] => []
  end.

Definition rstrip (s : str) : str := rev (lstrip (rev s)).

(** Truth value of a list: non-empty. *)
Definition truthy_list {A} (l : list A) : bool :=
  match l with [] => false | _ => true end.

(** [s.strip()] *)
Definition strip (s : str) : str := rstrip (lstrip s).

(** [s.split(sep)] for a one-character separator. *)
Fixpoint split (sep : N) (s : str) : list str :=
  match s with
  | [] => [[]]
  | c :: s' =>
    if c =? sep then [] :: split sep s'
    else match split sep s' with
         | w :: ws => (c :: w) :: ws
         | [] => [[c]]
         end
  end.

(** [s.split(sep, 1)]: the text before and after the first separator. *)
Fixpoint split1 (sep : N) (s : str) : str * option str :=
  match s with
  | [] => ([], None)
  | c :: s' =>
    if c =? sep then ([], Some s')
    else let '(a, b) := split1 sep s' in (c :: a, b)
  end.

(** [s.count(c)] for a one-character [c]. *)
Fixpoint count (c : N) (s : str) : Z :=
  match s with
  | [] => 0%Z
  | x :: s' => ((if N.eqb x c then 1 else 0) + count c s')%Z
  end.

Fixpoint startswith (p s : str) : bool :=
  match p, s with
  | [], _ => true
  | x :: p', y :: s' => (x =? y) && startswith p' s'
  | _ :: _, [] => false
  end.

Definition endswith (p s : str) : bool := startswith (rev p) (rev s).

(** [p in s] for a non-empty [p]. *)
Fixpoint contains (p s : str) : bool :=
  startswith p s || match s with [] => false | _ :: s' => contains p s' end.

(** [s.replace(p, '')] for a non-empty [p]: occurrences are removed from
    left to right, without overlap.  [skip] counts the characters of an
    occurrence still to be dropped. *)
Fixpoint remove_go (p : str) (skip : nat) (s : str) : str :=
  match s with
  | [] => []
  | c :: s' =>
    match skip with
    | S k => remove_go p k s'
    | O => if startswith p s then remove_go p (Nat.pred (length p)) s'
           else c :: remove_go p O s'
    end
  end.

Definition remove (p s : str) : str := remove_go p O s.

End Ustr.

Definition u (s : string) : str := Ustr.of_string s.
Arguments u s%_string.

(** One-character literal. *)
Definition ch (s : string) : N := List.hd 0 (u s).
Arguments ch s%_string.

Definition NL : N := 10.
Definition FF : N := 12.

(** ** Regular expressions, as Python's [re] runs them *)

Module Re.

(** Character classes. *)
Inductive cls :=
| Dot                       (* [.]: anything but a newline *)
| Lit (c : N)
| OneOf (cs : str)          (* [[abc]] *)
| NoneOf (cs : str)         (* [[^abc]] *)
| Rng (lo hi : N)           (* [a-b] inside a bracket *)
| Digit                     (* [\d] *)
| Space                     (* [\s] *)
| Or (a b : cls).           (* two parts of one bracket *)

Fixpoint cls_match (k : cls) (c : N) : bool :=
  match k with
  | Dot => negb (c =? NL)
  | Lit x => c =? x
  | OneOf cs => Ustr.mem c cs
  | NoneOf cs => negb (Ustr.mem c cs)
  | Rng lo hi => (lo <=? c) && (c <=? hi)
  | Digit => Ustr.is_digit c
  | Space => Ustr.is_space c
  | Or a b => cls_match a c || cls_match b c
  end.

(** Patterns.  Every quantifier of the script applies to one character
    class, and no group is nested in another. *)
Inductive re :=
| Bol                                   (* [^] *)
| Eol                                   (* [$] *)
| One (k : cls)
| Rep (k : cls) (lo : nat) (hi : option nat) (greedy : bool)
| Cat (a b : re)
| Alt (a b : re)
| Grp (a : re).

(** A match in progress: position reached, and the groups closed so far. *)
Definition found := (nat * list str)%type.
Definition kont := nat -> list str -> str -> option found.

Definition below (hi : option nat) (n : nat) : bool :=
  match hi with Some h => (n <? h)%nat | None => true end.

(** [n] repetitions done; a greedy quantifier first tries one more, a
    lazy one first tries to go on with the rest of the pattern. *)
Fixpoint rep (k : cls) (lo : nat) (hi : option nat) (greedy : bool)
         (n pos : nat) (caps : list str) (kt : kont) (s : str) : option found :=
  let more (_ : unit) :=
    match s with
    | c :: s' =>
      if cls_match k c && below hi n
      then rep k lo hi greedy (S n) (S pos) caps kt s'
      else None
    | [] => None
    end in
  let stop (_ : unit) := if (lo <=? n)%nat then kt pos caps s else None in
  if greedy
  then match more tt with Some m => Some m | None => stop tt end
  else match stop tt with Some m => Some m | None => more tt end.

Fixpoint run (r : re) (pos : nat) (caps : list str) (kt : kont) (s : str)
  : option found :=
  match r with
  | Bol => if (pos =? 0)%nat then kt pos caps s else None
  | Eol => match s with
           | [] => kt pos caps s
           | [c] => if c =? NL then kt pos caps s else None
           | _ => None
           end
  | One k => match s with
             | c :: s' => if cls_match k c then kt (S pos) caps s' else None
             | [] => None
             end
  | Rep k lo hi greedy => rep k lo hi greedy 0 pos caps kt s
  | Cat a b => run a pos caps (fun p c t => run b p c kt t) s
  | Alt a b => match run a pos caps kt s with
               | Some m => Some m
               | None => run b pos caps kt s
               end
  | Grp a => run a pos caps
                 (fun p c t => kt p (c ++ [take (p - pos) s]) t) s
  end.

Definition accept : kont := fun p c _ => Some (p, c).

(** A match object: the whole match and the groups. *)
Record mobj := { group0 : str; groups : list str }.

Definition group (m : mobj) (i : nat) : str := nth (Nat.pred i) (groups m) [].

Definition at_pos (r : re) (pos : nat) (s : str) : option mobj :=
  match run r pos [] accept s with
  | Some (e, caps) => Some {| group0 := take (e - pos) s; groups := caps |}
  | None => None
  end.

(** [re.match(r, s)] *)
Definition match_ (r : re) (s : str) : option mobj := at_pos r 0 s.

(** [re.search(r, s)]: the leftmost match. *)
Fixpoint search_from (r : re) (pos : nat) (s : str) : option mobj :=
  match at_pos r pos s with
  | Some m => Some m
  | None => match s with
            | [] => None
            | _ :: s' => search_from r (S pos) s'
            end
  end.

Definition search (r : re) (s : str) : option mobj := search_from r 0 s.

(** [re.sub(r, '', s)]: every match, from left to right, is deleted.
    [skip] counts the characters of the current match still to be
    dropped.  The substituted patterns of the script match at least one
    character; deleting an empty match would change nothing. *)
Fixpoint sub_go (r : re) (skip pos : nat) (s : str) : str :=
  match s with
  | [] => []
  | c :: s' =>
    match skip with
    | S k => sub_go r k (S pos) s'
    | O => match at_pos r pos s with
           | Some m => match length (group0 m) with
                       | S k => sub_go r k (S pos) s'
                       | O => c :: sub_go r O (S pos) s'
                       end
           | None => c :: sub_go r O (S pos) s'
           end
    end
  end.

Definition sub (r : re) (s : str) : str := sub_go r 0 0 s.

Definition is_some {A} (o : option A) : bool :=
  match o with Some _ => true | None => false end.

End Re.

Import Re.
Infix "⋅" := Cat (at level 60, right associativity).
Definition plus (k : cls) : re := Rep k 1 None true.
Definition plus_lazy (k : cls) : re := Rep k 1 None false.
Definition star (k : cls) : re := Rep k 0 None true.
Definition between (k : cls) (lo hi : nat) : re := Rep k lo (Some hi) true.
Definition lit (s : string) : re := One (Lit (ch s)).
Arguments lit s%_string.
Definition set (s : string) : cls := OneOf (u s).
Arguments set s%_string.

(** ** Exceptions *)

Inductive exn := TypeError | KeyError | IndexError.

Inductive result (A : Type) :=
| Ok (a : A)
| Raise (e : exn).
Arguments Ok {A} a.
Arguments Raise {A} e.

#[global] Instance result_ret : MRet result := fun A a => Ok a.
#[global] Instance result_bind : MBind result := fun A B f m =>
  match m with
  | Ok a => f a
  | Raise e => Raise e
  end.

(** [d[k]] on a dictionary. *)
Definition getitem `{Countable K} {V} (d : gmap K V) (k : K) : result V :=
  match d !! k with
  | Some v => Ok v
  | None => Raise KeyError
  end.

(** [k in d] *)
Definition has_key `{Countable K} {V} (d : gmap K V) (k : K) : bool :=
  is_some (d !! k).

(** [s[0]] on a string. *)
Definition first_char (s : str) : result str :=
  match s with
  | c :: _ => Ok [c]
  | [] => Raise IndexError
  end.

(** ** The patterns of the script *)

Definition SECTION_ENDINGS : re := One (set "課室班係官") ⋅ Eol.  (* "[課室班係官]$" *)

Definition WHITESPACE_RUN : re := plus Space.                     (* "\s+" *)
Definition WHITESPACE_CHAR : re := One Space.                     (* "\s" *)
Definition ANNOTATION_FULL : re :=                                (* "（[^）]{1,30}）" *)
  lit "（" ⋅ between (NoneOf (u "）")) 1 30 ⋅ lit "）".
Definition ANNOTATION_HALF : re :=                                (* "\([^)]{1,30}\)" *)
  lit "(" ⋅ between (NoneOf (u ")")) 1 30 ⋅ lit ")".

Definition KANJI_DIGITS : cls := set "一二三四五六七八九十".
Definition RANGE_ITEM : re :=              (* "^第([一二三四五六七八九十]+)～第([一二三四五六七八九十]+)$" *)
  Bol ⋅ lit "第" ⋅ Grp (plus KANJI_DIGITS) ⋅ lit "～" ⋅ lit "第"
      ⋅ Grp (plus KANJI_DIGITS) ⋅ Eol.

Definition COUNT_DIGIT : cls := Or (Rng (ch "0") (ch "9")) (Rng (ch "０") (ch "９")).
Definition COUNT_SUFFIX : re := plus COUNT_DIGIT ⋅ Eol.           (* "[0-9０-９]+$" *)

Definition FORCE_NEW : re :=
  (* "^(\d+\s|[（(]\d|[２３４５６７８９１]+\s|＜|【|\d+$)" *)
  Bol ⋅ Grp (Alt (plus Digit ⋅ One Space)
            (Alt (One (set "（(") ⋅ One Digit)
            (Alt (plus (set "２３４５６７８９１") ⋅ One Space)
            (Alt (lit "＜")
            (Alt (lit "【")
                 (plus Digit ⋅ Eol)))))).

Definition PAGE_NUMBER : re := Bol ⋅ between Digit 1 3 ⋅ Eol.     (* "^\d{1,3}$" *)

Definition ORG_ENDS : re := One (set "局部所署台庁会校区") ⋅ Eol.  (* "[局部所署台庁会校区]$" *)

Definition ANGLE_START : re := Bol ⋅ lit "＜".                    (* "^＜" *)
Definition ANGLE_BLOCK : re :=                                    (* "^＜(.+?)＞" *)
  Bol ⋅ lit "＜" ⋅ Grp (plus_lazy Dot) ⋅ lit "＞".

Definition MINISTRY_NUMBERED : re :=
  (* "^[XⅠⅡⅢⅣⅤⅥⅦⅧⅨⅩⅪⅫxivl\d]+(.{2,20}[省庁院府])$" *)
  Bol ⋅ plus (Or (set "XⅠⅡⅢⅣⅤⅥⅦⅧⅨⅩⅪⅫxivl") Digit)
      ⋅ Grp (between Dot 2 20 ⋅ One (set "省庁院府")) ⋅ Eol.
Definition HOME_OFFICE : re := Bol ⋅ lit "本" ⋅ One (set "省庁") ⋅ Eol.   (* "^本[省庁]$" *)
Definition MINISTRY_BARE : re :=                                  (* "^.{2,15}[省庁院府]$" *)
  Bol ⋅ between Dot 2 15 ⋅ One (set "省庁院府") ⋅ Eol.
Definition NUMBERED_START : re :=                                 (* "^[本１２３４５６７８９(（\d]" *)
  Bol ⋅ One (Or (set "本１２３４５６７８９(（") Digit).

Definition CATEGORY_LINE : re :=
  (* "^[ＡＢＣＤＥＦＧＨＩａｂｃｄｅｆA-I](.{2,15})$" *)
  Bol ⋅ One (Or (set "ＡＢＣＤＥＦＧＨＩａｂｃｄｅｆ") (Rng (ch "A") (ch "I")))
      ⋅ Grp (between Dot 2 15) ⋅ Eol.
Definition CATEGORY_END : re := One (set "局部会機関") ⋅ Eol.     (* "[局部会機関]$" *)

Definition BRACKETED : re :=                                      (* "^(.+?)［(.+?)］(.＊)$", the star an ASCII one *)
  Bol ⋅ Grp (plus_lazy Dot) ⋅ lit "［" ⋅ Grp (plus_lazy Dot) ⋅ lit "］"
      ⋅ Grp (star Dot) ⋅ Eol.
Definition BUREAU_END : re := One (set "局部所署館庁校区") ⋅ Eol. (* "[局部所署館庁校区]$" *)

(** ** Normalisation and expansion *)

Definition normalize_line (line : str) : str :=
  let s := sub WHITESPACE_RUN line in
  let s := sub ANNOTATION_FULL s in
  let s := sub ANNOTATION_HALF s in
  Ustr.strip s.

Definition _KANJI_NUM : gmap str Z :=
  list_to_map [ (u "一", 1%Z); (u "二", 2%Z); (u "三", 3%Z); (u "四", 4%Z);
                (u "五", 5%Z); (u "六", 6%Z); (u "七", 7%Z); (u "八", 8%Z);
                (u "九", 9%Z) ].

Definition _ARABIC_KANJI : gmap Z str :=
  list_to_map [ (1%Z, u "一"); (2%Z, u "二"); (3%Z, u "三"); (4%Z, u "四");
                (5%Z, u "五"); (6%Z, u "六"); (7%Z, u "七"); (8%Z, u "八");
                (9%Z, u "九"); (10%Z, u "十"); (11%Z, u "十一"); (12%Z, u "十二") ].

(** [d.get(k, dflt)] *)
Definition get_or `{Countable K} {V} (d : gmap K V) (k : K) (dflt : V) : V :=
  default dflt (d !! k).

Definition _kanji_to_int (s : str) : result Z :=
  if has_key _KANJI_NUM s then getitem _KANJI_NUM s
  else if Ustr.eqb s (u "十") then Ok 10%Z
  else if Ustr.startswith (u "十") s then
    Ok (10 + get_or _KANJI_NUM (drop 1 s) 0)%Z
  else if Ustr.endswith (u "十") s then
    c ← first_char s; Ok (get_or _KANJI_NUM c 1 * 10)%Z
  else if Ustr.mem (ch "十") s then
    match Ustr.split1 (ch "十") s with
    | (p0, Some p1) => Ok (get_or _KANJI_NUM p0 1 * 10 + get_or _KANJI_NUM p1 0)%Z
    | (_, None) => Raise IndexError
    end
  else Ok 0%Z.

(** [[f'第{_ARABIC_KANJI[i]}' for i in ... if i in _ARABIC_KANJI]] *)
Fixpoint ordinal_names (ids : list Z) : result (list str) :=
  match ids with
  | [] => Ok []
  | i :: rest =>
    if has_key _ARABIC_KANJI i then
      k ← getitem _ARABIC_KANJI i;
      names ← ordinal_names rest;
      Ok ((u "第" ++ k) :: names)
    else ordinal_names rest
  end.

(** [range(a, b)] *)
Definition range (a b : Z) : list Z := seqZ a (b - a).

Definition _expand_item (item : str) : result (list str) :=
  match match_ RANGE_ITEM (Ustr.strip item) with
  | Some m =>
    start ← _kanji_to_int (group m 1);
    end_ ← _kanji_to_int (group m 2);
    ordinal_names (range start (end_ + 1))
  | None =>
    Ok (if Ustr.truthy (Ustr.strip item) then [Ustr.strip item] else [])
  end.

Fixpoint extend_all (items : list str) (acc : list str) : result (list str) :=
  match items with
  | [] => Ok acc
  | item :: rest => xs ← _expand_item item; extend_all rest (acc ++ xs)
  end.

Definition expand_angle_content (text : str) : result (list str) :=
  extend_all (Ustr.split (ch "、") text) [].

Definition strip_count (s : str) : str := Ustr.strip (sub COUNT_SUFFIX s).

Definition extract_bureaus_and_sections (bracket_text : str) : list str :=
  let items :=
    List.map Ustr.strip
      (List.filter (fun s => Ustr.truthy (Ustr.strip s))
                   (Ustr.split (ch "、") bracket_text)) in
  List.fold_left
    (fun sections item =>
       let item_clean := sub WHITESPACE_CHAR item in
       let item_clean := Ustr.strip (sub ANNOTATION_FULL item_clean) in
       if Ustr.truthy item_clean
          && is_some (search SECTION_ENDINGS item_clean)
          && (2 <=? length item_clean)%nat
       then sections ++ [item_clean] else sections)
    items [].

(** ** Joining continuation lines into blocks *)

Record joiner := {
  blocks : list str;
  current : option str;          (* [None] until the first block opens *)
  open_brackets : Z              (* unclosed ［ of the current block *)
}.

Definition bracket_delta (s : str) : Z :=
  (Ustr.count (ch "［") s - Ustr.count (ch "］") s)%Z.

Definition has_indent (raw_line : str) : bool :=
  Ustr.startswith (u " ") raw_line || Ustr.startswith [9] raw_line.

(** One turn of the loop over the lines of [raw_text]. *)
Definition join_line (j : joiner) (raw_line : str) : result joiner :=
  if negb (Ustr.truthy (Ustr.strip raw_line)) then Ok j
  else
    let stripped := Ustr.strip raw_line in
    if is_some (match_ PAGE_NUMBER stripped) then Ok j
    else
      let has_indent := has_indent raw_line in
      let is_forced_new := is_some (match_ FORCE_NEW stripped) in
      if (has_indent || negb (is_some (current j)) || is_forced_new)
         && negb (is_some (current j) && (0 <? open_brackets j)%Z && negb has_indent)
      then
        Ok {| blocks := match current j with
                        | Some c => blocks j ++ [c]
                        | None => blocks j
                        end;
              current := Some stripped;
              open_brackets := bracket_delta stripped |}
      else
        match current j with
        | Some c =>
          Ok {| blocks := blocks j;
                current := Some (c ++ stripped);
                open_brackets :=
                  Z.max 0 (open_brackets j + bracket_delta stripped) |}
        | None => Raise TypeError           (* None + str *)
        end.

Fixpoint join_lines (j : joiner) (lines : list str) : result joiner :=
  match lines with
  | [] => Ok j
  | raw_line :: rest => j' ← join_line j raw_line; join_lines j' rest
  end.

Definition join_start : joiner :=
  {| blocks := []; current := None; open_brackets := 0 |}.

Definition join_finish (j : joiner) : list str :=
  match current j with
  | Some c => if Ustr.truthy c then blocks j ++ [c] else blocks j
  | None => blocks j
  end.

Definition join_continuation_lines (raw_text : str) : result (list str) :=
  j ← join_lines join_start (Ustr.split NL raw_text);
  Ok (join_finish j).

(** ** Page merging *)

Definition angle_delta (s : str) : Z :=
  (Ustr.count (ch "＜") s - Ustr.count (ch "＞") s)%Z.

(** The two nested [while] loops of [parse_pdf]: [page_text] is the page
    being built, [open_angles] its counter, [rest] the raw pages after
    index [i]. *)
Fixpoint absorb (page_text : str) (open_angles : Z) (rest : list str) : list str :=
  match rest with
  | [] => [page_text]
  | next :: rest' =>
    if (0 <? open_angles)%Z
    then absorb (page_text ++ [NL] ++ next) (open_angles + angle_delta next) rest'
    else page_text :: absorb next (angle_delta next) rest'
  end.

Definition merge_pages (raw_pages : list str) : list str :=
  match raw_pages with
  | [] => []
  | first :: rest => absorb first (angle_delta first) rest
  end.

(** ** The block classifier *)

Record Row := {
  ministry : str;
  category : str;
  bureau : str;
  section : str;
  expanded_from : str
}.

Record State := {
  rows : list Row;
  current_ministry : str;
  current_category : str;
  prev_bureau_base : str;
  prev_bureau_full : str;
  last_prefixes : list str;
  last_count_str : str
}.

Definition start_state : State :=
  {| rows := []; current_ministry := []; current_category := [];
     prev_bureau_base := []; prev_bureau_full := [];
     last_prefixes := []; last_count_str := [] |}.

Definition row_of (st : State) (b s from : str) : Row :=
  {| ministry := current_ministry st; category := current_category st;
     bureau := b; section := s; expanded_from := from |}.

Definition emit (st : State) (new : list Row) : State :=
  {| rows := rows st ++ new;
     current_ministry := current_ministry st;
     current_category := current_category st;
     prev_bureau_base := prev_bureau_base st;
     prev_bureau_full := prev_bureau_full st;
     last_prefixes := last_prefixes st;
     last_count_str := last_count_str st |}.

Definition set_ministry (st : State) (name : str) : State :=
  {| rows := rows st; current_ministry := name; current_category := [];
     prev_bureau_base := prev_bureau_base st;
     prev_bureau_full := prev_bureau_full st;
     last_prefixes := last_prefixes st;
     last_count_str := last_count_str st |}.

Definition set_category (st : State) (name : str) : State :=
  {| rows := rows st; current_ministry := current_ministry st;
     current_category := name;
     prev_bureau_base := prev_bureau_base st;
     prev_bureau_full := prev_bureau_full st;
     last_prefixes := last_prefixes st;
     last_count_str := last_count_str st |}.

Definition set_prev (st : State) (base full : str) : State :=
  {| rows := rows st; current_ministry := current_ministry st;
     current_category := current_category st;
     prev_bureau_base := base; prev_bureau_full := full;
     last_prefixes := last_prefixes st;
     last_count_str := last_count_str st |}.

Definition set_last (st : State) (prefixes : list str) (count : str) : State :=
  {| rows := rows st; current_ministry := current_ministry st;
     current_category := current_category st;
     prev_bureau_base := prev_bureau_base st;
     prev_bureau_full := prev_bureau_full st;
     last_prefixes := prefixes; last_count_str := count |}.

(** [m.group() if m else ''] for the digit suffix. *)
Definition count_suffix (s : str) : str :=
  match search COUNT_SUFFIX s with
  | Some m => group0 m
  | None => []
  end.

(** The count-suffix check, written twice in the script (lines 286-304
    for [bureau_raw], lines 331-349 for [norm]): a name that loses a digit
    suffix and then ends in an organisation character either reuses the
    cached prefixes, once, or is stashed for an angle-bracket block that
    may follow. *)
Definition sibling_check (st : State) (count_stripped name : str)
           (next_is_angle : bool) : State :=
  let cur_count := count_suffix name in
  if negb next_is_angle
     && Ustr.truthy_list (last_prefixes st)
     && Ustr.truthy cur_count
     && Ustr.eqb cur_count (last_count_str st)
  then
    set_last
      (emit st (List.map (fun prefix => row_of st (prefix ++ count_stripped) [] name)
                         (last_prefixes st)))
      (last_prefixes st) []
  else set_prev st count_stripped name.

Definition count_suffix_check (st : State) (name : str) (next_is_angle : bool)
  : State :=
  let count_stripped := strip_count name in
  if negb (Ustr.eqb count_stripped name) && is_some (search ORG_ENDS count_stripped)
  then sibling_check st count_stripped name next_is_angle
  else st.

(** Lines 280-322: a bureau followed by its bracketed sections. *)
Definition bracket_rule (st : State) (bracket_m : mobj) (next_is_angle : bool)
  : State :=
  let bureau_raw := Ustr.strip (group bracket_m 1) in
  let sections_raw := group bracket_m 2 in
  let sections := extract_bureaus_and_sections sections_raw in
  let st := count_suffix_check st bureau_raw next_is_angle in
  let st :=
    if Ustr.truthy bureau_raw
       && (2 <=? length bureau_raw)%nat && (length bureau_raw <=? 35)%nat
    then emit st [row_of st bureau_raw [] []]
    else st in
  emit st (List.map (fun sec => row_of st bureau_raw sec []) sections).

(** The test of line 327-330 for a bureau without brackets. *)
Definition bare_bureau (norm : str) : bool :=
  let _cs := strip_count norm in
  let _ends_org :=
    is_some (search BUREAU_END norm)
    || (negb (Ustr.eqb _cs norm) && is_some (search ORG_ENDS _cs)) in
  _ends_org
  && (2 <=? length norm)%nat && (length norm <=? 25)%nat
  && negb (Ustr.mem (ch "（") norm) && negb (Ustr.mem (ch "、") norm).

(** Lines 326-357. *)
Definition bare_rule (st : State) (norm : str) (next_is_angle : bool) : State :=
  if bare_bureau norm then
    let st := count_suffix_check st norm next_is_angle in
    emit st [row_of st norm [] []]
  else st.

(** Lines 255-277: the result of the ministry and category rules, when
    one of them ends the turn of the loop. *)
Definition header_rules (st : State) (norm : str) : option State :=
  match match_ MINISTRY_NUMBERED norm with
  | Some m =>
    let candidate := group m 1 in
    if negb (is_some (match_ HOME_OFFICE candidate))
    then Some (set_ministry st candidate)
    else Some st
  | None =>
    if is_some (match_ MINISTRY_BARE norm)
       && negb (Ustr.mem (ch "（") norm) && negb (Ustr.mem (ch "、") norm)
       && negb (is_some (search NUMBERED_START norm))
    then Some (set_ministry st norm)
    else
      match match_ CATEGORY_LINE norm with
      | Some cat_m =>
        let cat_text := group cat_m 1 in
        if is_some (search CATEGORY_END cat_text)
        then Some (set_category st cat_text)
        else None
      | None => None
      end
  end.

(** The body of the loop over the blocks of a page, from [angle_m] on. *)
Definition classify (st : State) (norm : str) (next_is_angle : bool) : result State :=
  match match_ ANGLE_BLOCK norm, Ustr.truthy (prev_bureau_base st) with
  | Some angle_m, true =>
    prefixes ← expand_angle_content (group angle_m 1);
    let st1 := set_last st prefixes (count_suffix (prev_bureau_full st)) in
    let st2 :=
      emit st1 (List.map (fun prefix =>
                            row_of st (prefix ++ prev_bureau_base st) []
                                   (prev_bureau_full st)) prefixes) in
    Ok (set_prev st2 [] [])
  | _, _ =>
    let st := set_prev st [] [] in
    match header_rules st norm with
    | Some st' => Ok st'
    | None =>
      match match_ BRACKETED norm with
      | Some bracket_m => Ok (bracket_rule st bracket_m next_is_angle)
      | None => Ok (bare_rule st norm next_is_angle)
      end
    end
  end.

(** ** The scan over pages and blocks *)

(** The first non-empty normalised block, or [''] . *)
Fixpoint first_norm (bs : list str) : str :=
  match bs with
  | [] => []
  | b :: rest =>
    let nn := normalize_line b in
    if Ustr.truthy nn then nn else first_norm rest
  end.

(** [next_norm]: looked up among the blocks after the current one, then
    among the blocks of the following page, [pages[page_idx + 1]]. *)
Definition lookahead (next_page : option str) (rest : list str) : result str :=
  let next_norm := first_norm rest in
  match Ustr.truthy next_norm, next_page with
  | false, Some p =>
    next_page_blocks ← join_continuation_lines p;
    Ok (first_norm next_page_blocks)
  | _, _ => Ok next_norm
  end.

Fixpoint scan_blocks (next_page : option str) (st : State) (bs : list str)
  : result State :=
  match bs with
  | [] => Ok st
  | block :: rest =>
    let norm := normalize_line block in
    if negb (Ustr.truthy norm) then scan_blocks next_page st rest
    else
      next_norm ← lookahead next_page rest;
      let next_is_angle := is_some (match_ ANGLE_START next_norm) in
      st' ← classify st norm next_is_angle;
      scan_blocks next_page st' rest
  end.

Fixpoint scan_pages (st : State) (pages : list str) : result State :=
  match pages with
  | [] => Ok st
  | page :: rest =>
    bs ← join_continuation_lines page;
    st' ← scan_blocks (head rest) st bs;
    scan_pages st' rest
  end.

(** [parse_pdf] after the split of the extracted text into raw pages. *)
Definition parse_pages (raw_pages : list str) : result (list Row) :=
  st ← scan_pages start_state (merge_pages raw_pages);
  Ok (rows st).

(** [parse_pdf], from the text [extract_text] returns. *)
Definition parse_pdf (raw : str) : result (list Row) :=
  parse_pages (Ustr.split FF raw).

(** ** De-duplication and aliases ([main]) *)

Definition Key := (str * str * str * str)%type.

Definition key (r : Row) : Key := (ministry r, category r, bureau r, section r).

Fixpoint dedup (seen : gset Key) (unique : list Row) (rs : list Row) : list Row :=
  match rs with
  | [] => unique
  | r :: rest =>
    if bool_decide (key r ∉ seen) && Ustr.truthy (ministry r)
    then dedup ({[ key r ]} ∪ seen) (unique ++ [r]) rest
    else dedup seen unique rest
  end.

(** An output record: the row and the [bureau_alias] column. *)
Record Out := {
  row : Row;
  bureau_alias : str
}.

Definition REGIONAL : str := u "地方".

Definition alias_of (_exists_in_db : str -> bool) (r : Row) : str :=
  if Ustr.truthy (expanded_from r) && Ustr.contains REGIONAL (bureau r) then
    let candidate := Ustr.remove REGIONAL (bureau r) in
    if negb (Ustr.eqb candidate (bureau r))
       && _exists_in_db candidate && negb (_exists_in_db (bureau r))
    then candidate else []
  else [].

Definition with_alias (_exists_in_db : str -> bool) (r : Row) : Out :=
  {| row := r; bureau_alias := alias_of _exists_in_db r |}.

(** The records [main] writes, from the rows of [parse_pdf]. *)
Definition publish (_exists_in_db : str -> bool) (rs : list Row) : list Out :=
  List.map (with_alias _exists_in_db) (dedup ∅ [] rs).

(** The whole engine on a sequence of raw pages. *)
Definition recover (raw_pages : list str) (_exists_in_db : str -> bool)
  : result (list Out) :=
  rs ← parse_pages raw_pages;
  Ok (publish _exists_in_db rs).

(** [main], from the extracted text. *)
Definition main (raw : str) (_exists_in_db : str -> bool) : result (list Out) :=
  rs ← parse_pdf raw;
  Ok (publish _exists_in_db rs).

(** ** Vocabulary of the statements *)

(** The angle-bracket rule is taken: the block matches and a bureau is
    pending. *)
Definition angle_fires (st : State) (norm : str) : bool :=
  is_some (match_ ANGLE_BLOCK norm) && Ustr.truthy (prev_bureau_base st).

(** A ministry or category rule ends the turn. *)
Definition is_header (norm : str) : bool :=
  is_some (header_rules start_state norm).

(** [bureau_line norm name secs]: the block is classified by the rule for
    a bureau with bracketed sections, or by the rule for a bare bureau;
    [name] is the bureau it names and [secs] its sections. *)
Inductive bureau_line (norm : str) : str -> list str -> Prop :=
| with_sections (m : mobj) :
    is_header norm = false ->
    match_ BRACKETED norm = Some m ->
    bureau_line norm (Ustr.strip (group m 1))
                (extract_bureaus_and_sections (group m 2))
| without_sections :
    is_header norm = false ->
    match_ BRACKETED norm = None ->
    bare_bureau norm = true ->
    bureau_line norm norm [].

(** The name loses a digit suffix and what is left ends in an
    organisation character. *)
Definition numbered (name : str) : Prop :=
  strip_count name <> name /\ search ORG_ENDS (strip_count name) <> None.

(** The rows a bureau line emits for itself: the literal name, within the
    length bound, and its sections. *)
Definition own_rows (st : State) (name : str) (secs : list str) : list Row :=
  (if Ustr.truthy name && (2 <=? length name)%nat && (length name <=? 35)%nat
   then [row_of st name [] []] else [])
  ++ List.map (fun sec => row_of st name sec []) secs.

(** The rows of a template expansion. *)
Definition expanded_rows (st : State) (prefixes : list str) (base from : str)
  : list Row :=
  List.map (fun prefix => row_of st (prefix ++ base) [] from) prefixes.

(** States linked by turns of the classifier in which no angle-bracket
    expansion takes place. *)
Inductive quiet : State -> State -> Prop :=
| quiet_here st : quiet st st
| quiet_turn st norm next_is_angle st' st'' :
    angle_fires st norm = false ->
    classify st norm next_is_angle = Ok st' ->
    quiet st' st'' ->
    quiet st st''.

(** A state with cached prefixes for the count ６. *)
Definition sibling_demo : State :=
  {| rows := []; current_ministry := u "警察庁"; current_category := u "地方機関";
     prev_bureau_base := []; prev_bureau_full := [];
     last_prefixes := [u "東北"; u "関東"]; last_count_str := u "６" |}.

(** The name of the ordinal [i], for [i] in the vocabulary. *)
Definition ordinal (i : Z) : option str := (u "第" ++.) <$> _ARABIC_KANJI !! i.

(** The condition under which an alias is warranted. *)
Definition warranted (e : str -> bool) (r : Row) : Prop :=
  expanded_from r <> []
  /\ (exists pre post, bureau r = pre ++ REGIONAL ++ post)
  /\ e (Ustr.remove REGIONAL (bureau r)) = true
  /\ e (bureau r) = false.

(** Inputs of the worked examples. *)

Definition alias_demo_db (name : str) : bool := Ustr.eqb name (u "九州防衛局").

Definition alias_demo_rows : list Row :=
  [ {| ministry := u "防衛省"; category := u "地方支分部局";
       bureau := u "九州地方防衛局"; section := [];
       expanded_from := u "地方防衛局８" |} ].

Definition open_block_demo : joiner :=
  {| blocks := []; current := Some (u "総務局［総務課、"); open_brackets := 1 |}.

(** A state with the bureau 防衛局 pending under the full name 九州防衛局１. *)
Definition angle_demo : State :=
  {| rows := []; current_ministry := u "防衛省"; current_category := u "地方支分部局";
     prev_bureau_base := u "防衛局"; prev_bureau_full := u "九州防衛局１";
     last_prefixes := []; last_count_str := [] |}.

(** ** Further vocabulary *)

(** [join_char_split], lines 41-46: the characters of a name printed one
    by one are joined again. *)
Definition join_char_split (text : str) : str := sub WHITESPACE_RUN text.

(** The number of leading characters of [s] in the class [k]. *)
Fixpoint span (k : cls) (s : str) : nat :=
  match s with
  | c :: s' => if cls_match k c then S (span k s') else O
  | [] => O
  end.

Definition not_space (c : N) : bool := negb (Ustr.is_space c).

(** A parenthetical annotation, as both passes of [normalize_line] match
    it: [ANNOTATION_FULL] is [annotation (ch "（") (ch "）")] and
    [ANNOTATION_HALF] is [annotation (ch "(") (ch ")")]. *)
Definition annotation (opening closing : N) : re :=
  One (Lit opening) ⋅ between (NoneOf [closing]) 1 30 ⋅ One (Lit closing).

(** A character that is neither whitespace nor an opening parenthesis. *)
Definition plain (c : N) : Prop :=
  Ustr.is_space c = false /\ c <> ch "（" /\ c <> ch "(".

(** A character of an annotation's text: no whitespace, no parenthesis
    that would open or close an annotation. *)
Definition note_char (c : N) : Prop :=
  Ustr.is_space c = false
  /\ c <> ch "（" /\ c <> ch "）" /\ c <> ch "(" /\ c <> ch ")".

(** One of the digits a count is written with. *)
Definition count_digit (c : N) : bool := cls_match COUNT_DIGIT c.

(** The string does not end in a count digit. *)
Definition ends_without_digit (s : str) : Prop :=
  match last s with
  | Some x => count_digit x = false
  | None => True
  end.

(** [sep.join(names)] for a one-character separator. *)
Fixpoint join_names (sep : N) (names : list str) : str :=
  match names with
  | [] => []
  | [name] => name
  | name :: rest => name ++ sep :: join_names sep rest
  end.

(** A prefix written out in a template: not empty, no whitespace, no list
    delimiter, and not the start of a range. *)
Definition literal_name (name : str) : Prop :=
  name <> []
  /\ Forall (fun c => Ustr.is_space c = false /\ c <> ch "、") name
  /\ head name <> Some (ch "第").

(** A raw line that block joining keeps: not blank, not a page number. *)
Definition kept_line (raw_line : str) : bool :=
  Ustr.truthy (Ustr.strip raw_line)
  && negb (is_some (match_ PAGE_NUMBER (Ustr.strip raw_line))).

(** A text with something in it and no whitespace at either end. *)
Definition trimmed (s : str) : Prop :=
  (exists c, head s = Some c /\ Ustr.is_space c = false)
  /\ (exists c, last s = Some c /\ Ustr.is_space c = false).

(** The text the joiner holds: the closed blocks and the open one. *)
Definition joined_text (j : joiner) : str :=
  concat (blocks j) ++ default [] (current j).

(** What a pattern matches.  [denote r pos pre t new]: at position [pos]
    of the subject, [r] matches the text [pre], with [t] after it, and
    closes the groups [new] in order. *)
Fixpoint denote (r : re) (pos : nat) (pre t : str) (new : list str) : Prop :=
  match r with
  | Bol => pre = [] /\ pos = O /\ new = []
  | Eol => pre = [] /\ (t = [] \/ t = [NL]) /\ new = []
  | One k => (exists c, pre = [c] /\ cls_match k c = true) /\ new = []
  | Rep k lo hi _ =>
    Forall (fun c => cls_match k c = true) pre
    /\ (lo <= length pre)%nat
    /\ match hi with Some h => (length pre <= h)%nat | None => True end
    /\ new = []
  | Cat a b =>
    exists p1 p2 n1 n2,
      pre = p1 ++ p2 /\ new = n1 ++ n2
      /\ denote a pos p1 (p2 ++ t) n1
      /\ denote b (pos + length p1) p2 t n2
  | Alt a b => denote a pos pre t new \/ denote b pos pre t new
  | Grp a => exists n, denote a pos pre t n /\ new = n ++ [pre]
  end.

(** The string ends in one of the characters [cs]. *)
Definition ends_in (cs : str) (s : str) : Prop :=
  exists body x, s = body ++ [x] /\ Ustr.mem x cs = true.

(** The string ends in a count digit. *)
Definition ends_in_digit (s : str) : Prop :=
  exists body d, s = body ++ [d] /\ count_digit d = true.

Definition MINISTRY_SUFFIXES : str := u "省庁院府".
Definition CATEGORY_SUFFIXES : str := u "局部会機関".
Definition ORG_SUFFIXES : str := u "局部所署台庁会校区".
Definition SECTION_SUFFIXES : str := u "課室班係官".

Definition no_space (s : str) : Prop :=
  Forall (fun c => Ustr.is_space c = false) s.

(** What holds of every row the scan emits. *)
Record row_ok (r : Row) : Prop := {
  ministry_ok : ministry r = [] \/ ends_in MINISTRY_SUFFIXES (ministry r);
  category_ok : category r = [] \/ ends_in CATEGORY_SUFFIXES (category r);
  bureau_ok : bureau r <> [];
  section_ok :
    section r = []
    \/ (expanded_from r = [] /\ ends_in SECTION_SUFFIXES (section r)
        /\ (2 <= length (section r))%nat);
  expanded_ok :
    expanded_from r = []
    \/ (section r = [] /\ ends_in ORG_SUFFIXES (bureau r)
        /\ ends_in_digit (expanded_from r))
}.

(** What holds of the state between two blocks. *)
Record state_ok (st : State) : Prop := {
  rows_ok : Forall row_ok (rows st);
  current_ministry_ok :
    current_ministry st = [] \/ ends_in MINISTRY_SUFFIXES (current_ministry st);
  current_category_ok :
    current_category st = [] \/ ends_in CATEGORY_SUFFIXES (current_category st);
  pending_ok :
    prev_bureau_base st = []
    \/ (ends_in ORG_SUFFIXES (prev_bureau_base st)
        /\ ends_in_digit (prev_bureau_full st))
}.

(** An item of a bracketed list, written without whitespace, annotation
    or delimiter. *)
Definition plain_item (item : str) : Prop :=
  item <> []
  /\ Forall (fun c => Ustr.is_space c = false /\ c <> ch "（" /\ c <> ch "、") item.

(** The item names a section: at least two characters, the last one of
    課室班係官. *)
Definition section_like (item : str) : bool :=
  match last item with
  | Some x => Ustr.mem x SECTION_SUFFIXES
  | None => false
  end && (2 <=? length item)%nat.

(** An item of the bracketed list as [extract_bureaus_and_sections]
    cleans it, lines 115-116. *)
Definition clean_item (item : str) : str :=
  Ustr.strip (sub ANNOTATION_FULL (sub WHITESPACE_CHAR item)).

(** ** Two runs of [main] *)

(** [seen] is a Python set of tuples of strings: a hash table.  The hash
    of a string is salted anew in every process, so the order in which the
    table holds its keys differs from one run to the next.  The table is
    the list of its keys in the order of their hashes under the hash
    function of the run; a key is found by its hash and then by equality.
    [main] tests membership and adds keys, nothing else. *)
Definition same_key (hash : Key -> N) (k x : Key) : bool :=
  (hash x =? hash k) && bool_decide (x = k).

Definition set_contains (hash : Key -> N) (k : Key) (table : list Key) : bool :=
  existsb (same_key hash k) table.

Fixpoint set_add (hash : Key -> N) (k : Key) (table : list Key) : list Key :=
  match table with
  | [] => [k]
  | x :: rest =>
    if same_key hash k x then table
    else if hash k <? hash x then k :: table
    else x :: set_add hash k rest
  end.

(** The first loop of [main], over the hash table of the run. *)
Fixpoint unique_rows (hash : Key -> N) (seen : list Key) (unique : list Row)
    (rs : list Row) : list Row :=
  match rs with
  | [] => unique
  | r :: rest =>
    if negb (set_contains hash (key r) seen) && Ustr.truthy (ministry r)
    then unique_rows hash (set_add hash (key r) seen) (unique ++ [r]) rest
    else unique_rows hash seen unique rest
  end.

(** A computation that asks the recipients database whether names exist:
    it is done, or it sends a name and goes on with the answer. *)
Inductive asking (A : Type) : Type :=
| Done (a : A)
| Query (name : str) (k : bool -> asking A).

Arguments Done {A} a.
Arguments Query {A} name k.

Fixpoint asking_then {A B : Type} (f : A -> asking B) (m : asking A) : asking B :=
  match m with
  | Done a => f a
  | Query name k => Query name (fun found => asking_then f (k found))
  end.

#[global] Instance asking_ret : MRet asking := fun A a => Done a.
#[global] Instance asking_bind : MBind asking := fun A B f m => asking_then f m.

(** [_exists_in_db], as a question to the database. *)
Definition exists_in_db (name : str) : asking bool := Query name Done.

(** The body of the second loop of [main]: the conjunction is evaluated
    from the left, so the bureau is looked up only when the candidate
    differs from it and exists. *)
Definition alias_asked (r : Row) : asking str :=
  if Ustr.truthy (expanded_from r) && Ustr.contains REGIONAL (bureau r) then
    let candidate := Ustr.remove REGIONAL (bureau r) in
    if negb (Ustr.eqb candidate (bureau r)) then
      found ← exists_in_db candidate;
      if found : bool then
        taken ← exists_in_db (bureau r);
        Done (if negb taken then candidate else [])
      else Done []
    else Done []
  else Done [].

Fixpoint aliases_asked (unique : list Row) : asking (list Out) :=
  match unique with
  | [] => Done []
  | r :: rest =>
    alias ← alias_asked r;
    outs ← aliases_asked rest;
    Done ({| row := r; bureau_alias := alias |} :: outs)
  end.

(** A computation run against a database: its result and the names it
    asked for, in order. *)
Fixpoint answered {A : Type} (_exists_in_db : str -> bool) (p : asking A)
  : A * list str :=
  match p with
  | Done a => (a, [])
  | Query name k =>
    let (a, names) := answered _exists_in_db (k (_exists_in_db name)) in
    (a, name :: names)
  end.

(** One run of the engine: the hash function of the process, the database
    and the pages give the records and the names looked up. *)
Definition main_run (hash : Key -> N) (_exists_in_db : str -> bool)
    (raw_pages : list str) : result (list Out * list str) :=
  rs ← parse_pages raw_pages;
  Ok (answered _exists_in_db (aliases_asked (unique_rows hash [] [] rs))).

Definition records (r : result (list Out * list str)) : result (list Out) :=
  match r with
  | Ok (outs, _) => Ok outs
  | Raise e => Raise e
  end.

Definition queried (r : result (list Out * list str)) : list str :=
  match r with
  | Ok (_, names) => names
  | Raise _ => []
  end.


(** Pages whose rows repeat and whose expansion asks the database. *)
Definition run_demo_pages : list str :=
  [u " 防衛省"; u " 地方防衛局８"; u "＜九州、関東＞"; u " 防衛省"; u " 地方防衛局８"].


(** * Properties *)

(** ** Strings *)

Lemma ustr_eqb_eq (a b : str) : Ustr.eqb a b = true <-> a = b.
Proof.
  revert b; induction a as [|x a IH]; intros [|y b]; simpl; try easy.
  rewrite andb_true_iff, N.eqb_eq, IH. split.
  - intros [-> ->]; reflexivity.
  - intros [= -> ->]; auto.
Qed.

Lemma ustr_eqb_refl (a : str) : Ustr.eqb a a = true.
Proof. now apply ustr_eqb_eq. Qed.

Lemma ustr_eqb_neq (a b : str) : Ustr.eqb a b = false <-> a <> b.
Proof.
  rewrite <- ustr_eqb_eq. destruct (Ustr.eqb a b); split; congruence.
Qed.

Lemma truthy_true (s : str) : Ustr.truthy s = true <-> s <> [].
Proof. destruct s; simpl; split; congruence. Qed.

Lemma truthy_false (s : str) : Ustr.truthy s = false <-> s = [].
Proof. destruct s; simpl; split; congruence. Qed.

Lemma count_app (c : N) (a b : str) :
  Ustr.count c (a ++ b) = (Ustr.count c a + Ustr.count c b)%Z.
Proof. induction a as [|x a IH]; simpl; [reflexivity | rewrite IH; lia]. Qed.

(** ** Page merging (C4) *)

Lemma angle_delta_join (a b : str) :
  angle_delta (a ++ [NL] ++ b) = (angle_delta a + angle_delta b)%Z.
Proof.
  unfold angle_delta. rewrite !count_app.
  change (Ustr.count (ch "＜") [NL]) with 0%Z.
  change (Ustr.count (ch "＞") [NL]) with 0%Z. lia.
Qed.

Lemma removelast_cons {A} (x : A) (l : list A) :
  l <> [] -> removelast (x :: l) = x :: removelast l.
Proof. destruct l; [congruence | reflexivity]. Qed.

Lemma absorb_nonempty (rest : list str) (page_text : str) (n : Z) :
  absorb page_text n rest <> [].
Proof.
  revert page_text n; induction rest as [|next rest IH]; intros; simpl.
  - discriminate.
  - destruct (0 <? n)%Z; [apply IH | discriminate].
Qed.

Lemma absorb_closed (rest : list str) (page_text : str) :
  Forall (fun p => (angle_delta p <= 0)%Z)
         (removelast (absorb page_text (angle_delta page_text) rest)).
Proof.
  revert page_text; induction rest as [|next rest IH]; intros; simpl.
  - constructor.
  - destruct (0 <? angle_delta page_text)%Z eqn:Hopen.
    + rewrite <- angle_delta_join. apply IH.
    + rewrite removelast_cons by apply absorb_nonempty.
      constructor; [lia | apply IH].
Qed.

(** C4, as the code has it: in the list of merged pages, every page but
    the last has no more ＜ than ＞; a page with excess ＜ has absorbed the
    pages after it until the excess was gone or the input ended.  The last
    page may keep excess ＜, and any page may have excess ＞. *)
Theorem merged_pages_closed (raw_pages : list str) :
  Forall (fun p => (Ustr.count (ch "＜") p <= Ustr.count (ch "＞") p)%Z)
         (removelast (merge_pages raw_pages)).
Proof.
  destruct raw_pages as [|first rest]; simpl; [constructor|].
  eapply Forall_impl; [apply absorb_closed|].
  unfold angle_delta; simpl; intros; lia.
Qed.

(** C4 as stated fails: a single page holding one ＜ is emitted as it is,
    and so is a page holding one ＞. *)
Lemma merged_pages_unbalanced :
  merge_pages [u "＜東北"] = [u "＜東北"]
  /\ Ustr.count (ch "＜") (u "＜東北") <> Ustr.count (ch "＞") (u "＜東北")
  /\ merge_pages [u "九州＞"; u "局"] = [u "九州＞"; u "局"]
  /\ Ustr.count (ch "＜") (u "九州＞") <> Ustr.count (ch "＞") (u "九州＞").
Proof. vm_compute. repeat split; discriminate. Qed.

(** ** De-duplication (C6) *)

Lemma dedup_acc (rs : list Row) (seen : gset Key) (unique : list Row) :
  dedup seen unique rs = unique ++ dedup seen [] rs.
Proof.
  revert seen unique; induction rs as [|r rs IH]; intros; simpl.
  - now rewrite app_nil_r.
  - destruct (bool_decide (key r ∉ seen) && Ustr.truthy (ministry r)).
    + rewrite IH, (IH _ [r]). now rewrite <- app_assoc.
    + apply IH.
Qed.

Lemma dedup_cons (r : Row) (rs : list Row) (seen : gset Key) :
  dedup seen [] (r :: rs) =
  if bool_decide (key r ∉ seen) && Ustr.truthy (ministry r)
  then r :: dedup ({[ key r ]} ∪ seen) [] rs
  else dedup seen [] rs.
Proof.
  simpl. destruct (bool_decide (key r ∉ seen) && Ustr.truthy (ministry r));
    [apply dedup_acc | reflexivity].
Qed.

Ltac dedup_turn r seen :=
  rewrite dedup_cons;
  let Hnew := fresh "Hnew" in
  let Hmin := fresh "Hmin" in
  destruct (bool_decide (key r ∉ seen)) eqn:Hnew;
  [ apply bool_decide_eq_true in Hnew | apply bool_decide_eq_false in Hnew ];
  destruct (Ustr.truthy (ministry r)) eqn:Hmin; simpl andb; cbv iota.

Lemma dedup_kept (rs : list Row) (seen : gset Key) (o : Row) :
  o ∈ dedup seen [] rs -> (key o ∉ seen) /\ (ministry o <> []).
Proof.
  revert seen; induction rs as [|r rs IH]; intros seen.
  - simpl. intros H; inversion H.
  - dedup_turn r seen; try apply IH.
    rewrite elem_of_cons. intros [-> | Hin].
    + split; [assumption | now apply truthy_true].
    + pose proof (IH _ Hin) as [Hk Hm]. split; [|assumption].
      intros Hs. apply Hk, elem_of_union_r, Hs.
Qed.

Lemma dedup_nodup (rs : list Row) (seen : gset Key) :
  NoDup (List.map key (dedup seen [] rs)).
Proof.
  revert seen; induction rs as [|r rs IH]; intros seen.
  - simpl. constructor.
  - dedup_turn r seen; try apply IH.
    simpl. apply NoDup_cons. split; [|apply IH].
    intros Hin. apply list_elem_of_In, in_map_iff in Hin as (o & Hko & Ho).
    apply list_elem_of_In, dedup_kept in Ho as [Hk _]. rewrite Hko in Hk.
    apply Hk, elem_of_union_l, elem_of_singleton. reflexivity.
Qed.

Lemma dedup_sublist (rs : list Row) (seen : gset Key) :
  sublist (dedup seen [] rs) rs.
Proof.
  revert seen; induction rs as [|r rs IH]; intros seen.
  - simpl. constructor.
  - dedup_turn r seen; try (apply sublist_cons, IH).
    apply sublist_skip, IH.
Qed.

Lemma dedup_first (rs : list Row) (seen : gset Key) (o : Row) :
  o ∈ dedup seen [] rs ->
  List.find (fun r => bool_decide (key r = key o)) rs = Some o.
Proof.
  revert seen; induction rs as [|r rs IH]; intros seen.
  - simpl. intros H; inversion H.
  - assert (Hskip : forall s, o ∈ dedup s [] rs -> key r <> key o ->
                      List.find (fun r => bool_decide (key r = key o)) (r :: rs) = Some o).
    { intros s Ho Hne. simpl. rewrite bool_decide_eq_false_2 by assumption.
      now apply (IH s). }
    dedup_turn r seen.
    + rewrite elem_of_cons. intros [-> | Hin].
      * simpl. now rewrite bool_decide_eq_true_2.
      * apply (Hskip _ Hin). apply dedup_kept in Hin as [Hk _].
        intros Heq. apply Hk. rewrite Heq.
        apply elem_of_union_l, elem_of_singleton. reflexivity.
    + intros Hin. apply (Hskip _ Hin). apply dedup_kept in Hin as [_ Hm].
      apply truthy_false in Hmin. intros [= Heq]. congruence.
    + intros Hin. apply (Hskip _ Hin). apply dedup_kept in Hin as [Hk _].
      intros Heq. rewrite Heq in Hnew. tauto.
    + intros Hin. apply (Hskip _ Hin). apply dedup_kept in Hin as [Hk _].
      intros Heq. rewrite Heq in Hnew. tauto.
Qed.

Lemma dedup_complete (rs : list Row) (seen : gset Key) (r : Row) :
  r ∈ rs -> ministry r <> [] -> key r ∉ seen ->
  key r ∈ List.map key (dedup seen [] rs).
Proof.
  revert seen; induction rs as [|x rs IH]; intros seen Hin Hm Hk.
  - inversion Hin.
  - apply elem_of_cons in Hin.
    destruct (decide (key r = key x)) as [Heq | Hne].
    + rewrite dedup_cons, <- Heq.
      rewrite bool_decide_eq_true_2 by assumption.
      assert (ministry x = ministry r) as -> by (injection Heq; congruence).
      apply truthy_true in Hm. rewrite Hm. simpl. rewrite Heq. left.
    + destruct Hin as [-> | Hin]; [congruence|].
      dedup_turn x seen; try (apply IH; assumption).
      simpl. right. apply IH; [assumption ..|].
      rewrite elem_of_union, elem_of_singleton. tauto.
Qed.

Lemma publish_rows (_exists_in_db : str -> bool) (rs : list Row) :
  List.map row (publish _exists_in_db rs) = dedup ∅ [] rs.
Proof.
  unfold publish. induction (dedup ∅ [] rs) as [|r l IH]; simpl; congruence.
Qed.

Lemma dedup_step (r : Row) (rs : list Row) (seen : gset Key) :
  (dedup seen [] (r :: rs) = r :: dedup ({[ key r ]} ∪ seen) [] rs
   /\ forall o, o ∈ dedup ({[ key r ]} ∪ seen) [] rs -> key r <> key o)
  \/ (dedup seen [] (r :: rs) = dedup seen [] rs
      /\ forall o, o ∈ dedup seen [] rs -> key r <> key o).
Proof.
  dedup_turn r seen.
  - left. split; [reflexivity|]. intros o Ho Heq.
    apply dedup_kept in Ho as [Hk _]. apply Hk. rewrite <- Heq.
    apply elem_of_union_l, elem_of_singleton. reflexivity.
  - right. split; [reflexivity|]. intros o Ho [= Heq].
    apply dedup_kept in Ho as [_ Hm]. apply truthy_false in Hmin. congruence.
  - right. split; [reflexivity|]. intros o Ho Heq.
    apply dedup_kept in Ho as [Hk _]. rewrite Heq in Hnew. tauto.
  - right. split; [reflexivity|]. intros o Ho Heq.
    apply dedup_kept in Ho as [Hk _]. rewrite Heq in Hnew. tauto.
Qed.

Lemma list_find_skip (o r : Row) (rs : list Row) (p : nat) :
  key r <> key o ->
  list_find (fun x => key x = key o) rs = Some (p, o) ->
  list_find (fun x => key x = key o) (r :: rs) = Some (S p, o).
Proof.
  intros Hne H. cbn [list_find]. rewrite decide_False by assumption.
  rewrite H. reflexivity.
Qed.

Lemma dedup_position (rs : list Row) (seen : gset Key) (o : Row) :
  o ∈ dedup seen [] rs ->
  exists p, list_find (fun x => key x = key o) rs = Some (p, o).
Proof.
  revert seen; induction rs as [|r rs IH]; intros seen.
  - simpl. intros H; inversion H.
  - destruct (dedup_step r rs seen) as [[-> Hne] | [-> Hne]].
    + rewrite elem_of_cons. intros [-> | Hin].
      * exists 0%nat. cbn [list_find]. now rewrite decide_True.
      * destruct (IH _ Hin) as [p Hp]. exists (S p).
        apply list_find_skip; auto.
    + intros Hin. destruct (IH _ Hin) as [p Hp]. exists (S p).
      apply list_find_skip; auto.
Qed.

(** The rows kept stand in the order of the first rows with their keys. *)
Lemma dedup_order (rs : list Row) (seen : gset Key) (i j : nat) (oi oj : Row) :
  dedup seen [] rs !! i = Some oi ->
  dedup seen [] rs !! j = Some oj ->
  (i < j)%nat ->
  exists pi pj,
    list_find (fun x => key x = key oi) rs = Some (pi, oi)
    /\ list_find (fun x => key x = key oj) rs = Some (pj, oj)
    /\ (pi < pj)%nat.
Proof.
  revert seen i j; induction rs as [|r rs IH]; intros seen i j.
  - simpl. intros H; inversion H.
  - destruct (dedup_step r rs seen) as [[-> Hne] | [-> Hne]].
    + destruct j as [|j]; [lia|]. destruct i as [|i]; cbn [lookup list_lookup].
      * intros [= <-] Hj _.
        apply list_elem_of_lookup_2 in Hj. pose proof (Hne _ Hj) as Hkey.
        destruct (dedup_position _ _ _ Hj) as [p Hp].
        exists 0%nat, (S p). split; [|split; [|lia]].
        -- cbn [list_find]. now rewrite decide_True.
        -- apply list_find_skip; auto.
      * intros Hi Hj Hlt.
        destruct (IH _ i j Hi Hj ltac:(lia)) as (pi & pj & Hpi & Hpj & Hp).
        apply list_elem_of_lookup_2 in Hi, Hj.
        exists (S pi), (S pj). split; [|split; [|lia]];
          apply list_find_skip; auto.
    + intros Hi Hj Hlt.
      destruct (IH _ i j Hi Hj Hlt) as (pi & pj & Hpi & Hpj & Hp).
      apply list_elem_of_lookup_2 in Hi, Hj.
      exists (S pi), (S pj). split; [|split; [|lia]];
        apply list_find_skip; auto.
Qed.

(** C6: in the published records no two share the key (ministry,
    category, bureau, section), none has an empty ministry, each is the
    first row emitted with its key, they are a subsequence of the rows
    emitted, every key with a ministry is represented, and they stand in
    first-seen key order: of two published records, the one published
    earlier has the earlier first row with its key among the rows
    emitted. *)
Theorem published_unique (_exists_in_db : str -> bool) (rs : list Row) :
  let out := List.map row (publish _exists_in_db rs) in
  NoDup (List.map key out)
  /\ (forall o, o ∈ out -> ministry o <> [])
  /\ (forall o, o ∈ out ->
        List.find (fun r => bool_decide (key r = key o)) rs = Some o)
  /\ sublist out rs
  /\ (forall r, r ∈ rs -> ministry r <> [] -> key r ∈ List.map key out)
  /\ (forall i j oi oj,
        out !! i = Some oi -> out !! j = Some oj -> (i < j)%nat ->
        exists pi pj,
          list_find (fun r => key r = key oi) rs = Some (pi, oi)
          /\ list_find (fun r => key r = key oj) rs = Some (pj, oj)
          /\ (pi < pj)%nat).
Proof.
  rewrite publish_rows. cbv zeta.
  split; [|split; [|split; [|split; [|split]]]].
  - apply dedup_nodup.
  - intros o Ho. now apply dedup_kept in Ho.
  - intros o Ho. now apply (dedup_first _ ∅).
  - apply dedup_sublist.
  - intros r Hr Hm. apply dedup_complete; [assumption ..|]. apply not_elem_of_empty.
  - intros i j oi oj. apply dedup_order.
Qed.

(** ** Aliases (C7) *)

Lemma startswith_spec (p s : str) :
  Ustr.startswith p s = true <-> exists rest, s = p ++ rest.
Proof.
  revert s; induction p as [|x p IH]; intros s; simpl.
  - split; [exists s; reflexivity | reflexivity].
  - destruct s as [|y s].
    + split; [discriminate | intros [rest [=]]].
    + rewrite andb_true_iff, N.eqb_eq, IH. split.
      * intros [-> [rest ->]]. exists rest. reflexivity.
      * intros [rest [= -> ->]]. split; [reflexivity | exists rest; reflexivity].
Qed.

Lemma contains_cons (p : str) (c : N) (s : str) :
  Ustr.contains p (c :: s) = Ustr.startswith p (c :: s) || Ustr.contains p s.
Proof. reflexivity. Qed.

Lemma contains_spec (p s : str) :
  Ustr.contains p s = true <-> exists pre post, s = pre ++ p ++ post.
Proof.
  induction s as [|c s IH].
  - cbn [Ustr.contains]. rewrite orb_false_r, startswith_spec. split.
    + intros [rest ->]. exists [], rest. reflexivity.
    + intros (pre & post & H). destruct pre; [|discriminate].
      exists post. exact H.
  - rewrite contains_cons, orb_true_iff, startswith_spec, IH. split.
    + intros [[rest ->] | (pre & post & ->)].
      * exists [], rest. reflexivity.
      * exists (c :: pre), post. reflexivity.
    + intros (pre & post & H). destruct pre as [|x pre].
      * left. exists post. exact H.
      * right. injection H as -> ->. exists pre, post. reflexivity.
Qed.

Lemma remove_go_length (p : str) (s : str) (skip : nat) :
  (length (Ustr.remove_go p skip s) <= length s)%nat.
Proof.
  revert skip; induction s as [|c s IH]; intros skip; [reflexivity|].
  cbn [Ustr.remove_go]. destruct skip.
  - destruct (Ustr.startswith p (c :: s)).
    + specialize (IH (Nat.pred (length p))). simpl. lia.
    + specialize (IH O). simpl. lia.
  - specialize (IH skip). simpl. lia.
Qed.

Lemma remove_shorter (p s : str) :
  p <> [] -> Ustr.contains p s = true ->
  (length (Ustr.remove p s) < length s)%nat.
Proof.
  intros Hp. unfold Ustr.remove. induction s as [|c s IH].
  - destruct p; [congruence | discriminate].
  - rewrite contains_cons. cbn [Ustr.remove_go].
    destruct (Ustr.startswith p (c :: s)).
    + intros _. pose proof (remove_go_length p s (Nat.pred (length p))).
      simpl. lia.
    + intros H. apply IH in H. simpl. lia.
Qed.

Lemma remove_changes (b : str) :
  Ustr.contains REGIONAL b = true -> Ustr.remove REGIONAL b <> b.
Proof.
  intros H Heq. apply remove_shorter in H; [|discriminate].
  rewrite Heq in H. lia.
Qed.

Lemma alias_of_cases (e : str -> bool) (r : Row) :
  alias_of e r =
  if Ustr.truthy (expanded_from r) && Ustr.contains REGIONAL (bureau r)
     && e (Ustr.remove REGIONAL (bureau r)) && negb (e (bureau r))
  then Ustr.remove REGIONAL (bureau r) else [].
Proof.
  unfold alias_of.
  destruct (Ustr.truthy (expanded_from r)); [|reflexivity].
  destruct (Ustr.contains REGIONAL (bureau r)) eqn:Hc; [|reflexivity].
  apply remove_changes, ustr_eqb_neq in Hc. rewrite Hc. reflexivity.
Qed.

Lemma warranted_dec (e : str -> bool) (r : Row) :
  warranted e r <->
  Ustr.truthy (expanded_from r) && Ustr.contains REGIONAL (bureau r)
  && e (Ustr.remove REGIONAL (bureau r)) && negb (e (bureau r)) = true.
Proof.
  unfold warranted.
  rewrite !andb_true_iff, truthy_true, contains_spec, negb_true_iff. tauto.
Qed.

(** C7: a published record carries as [bureau_alias] its bureau without
    the qualifier 地方 when it comes from an expansion, its bureau holds
    the qualifier, the shortened name exists in the canonical set and the
    bureau itself does not; in every other case the alias is empty. *)
Theorem alias_only_when_warranted
        (_exists_in_db : str -> bool) (rs : list Row) (o : Out) :
  o ∈ publish _exists_in_db rs ->
  (warranted _exists_in_db (row o) ->
     bureau_alias o = Ustr.remove REGIONAL (bureau (row o)))
  /\ (~ warranted _exists_in_db (row o) -> bureau_alias o = [])
  /\ (Ustr.remove REGIONAL (bureau (row o)) <> [] ->
      (bureau_alias o = Ustr.remove REGIONAL (bureau (row o))
       <-> warranted _exists_in_db (row o))).
Proof.
  unfold publish. intros Ho.
  apply list_elem_of_In, in_map_iff in Ho as (r & <- & _).
  cbn [with_alias row bureau_alias]. rewrite alias_of_cases, !warranted_dec.
  destruct (_ && _ && _ && _); repeat split; intros; congruence.
Qed.

Lemma alias_only_when_warranted_witness :
  exists o, publish alias_demo_db alias_demo_rows = [o]
            /\ bureau_alias o = u "九州防衛局".
Proof.
  eexists. split; [vm_compute; reflexivity|].
  refine (proj1 (alias_only_when_warranted alias_demo_db alias_demo_rows _ _) _).
  - vm_compute. apply list_elem_of_here.
  - repeat split; [discriminate | exists (u "九州"), (u "防衛局"); reflexivity].
Defined.

(** ** Determinism (C10) *)

Lemma same_key_spec (hash : Key -> N) (k x : Key) :
  same_key hash k x = true <-> x = k.
Proof.
  unfold same_key. rewrite andb_true_iff, N.eqb_eq, bool_decide_eq_true.
  split; [tauto | intros ->; auto].
Qed.

(** Whatever the hashes, the table answers for the keys added to it. *)
Lemma set_contains_spec (hash : Key -> N) (k : Key) (table : list Key) :
  set_contains hash k table = true <-> k ∈ table.
Proof.
  unfold set_contains. rewrite existsb_exists. split.
  - intros (x & Hin & Hx). apply same_key_spec in Hx. subst.
    now apply list_elem_of_In.
  - intros H. exists k. split; [now apply list_elem_of_In | now apply same_key_spec].
Qed.

Lemma set_add_spec (hash : Key -> N) (k : Key) (table : list Key) (x : Key) :
  x ∈ set_add hash k table <-> x = k \/ x ∈ table.
Proof.
  induction table as [|y t IH]; cbn [set_add].
  - rewrite elem_of_cons. tauto.
  - destruct (same_key hash k y) eqn:Hs.
    + apply same_key_spec in Hs. subst. rewrite elem_of_cons. tauto.
    + destruct (hash k <? hash y); rewrite !elem_of_cons; [tauto | rewrite IH; tauto].
Qed.

(** The rows kept do not depend on the order of the table. *)
Lemma unique_rows_dedup (hash : Key -> N) (rs : list Row) :
  forall (table : list Key) (seen : gset Key) (unique : list Row),
    (forall k, k ∈ table <-> k ∈ seen) ->
    unique_rows hash table unique rs = dedup seen unique rs.
Proof.
  induction rs as [|r rs IH]; intros table seen unique Hsame; cbn [unique_rows dedup].
  - reflexivity.
  - assert (Hnew : negb (set_contains hash (key r) table) = bool_decide (key r ∉ seen)).
    { destruct (set_contains hash (key r) table) eqn:Hc; cbn [negb]; symmetry.
      - apply bool_decide_eq_false_2. apply set_contains_spec in Hc.
        intros Hn. apply Hn, Hsame, Hc.
      - apply bool_decide_eq_true_2. intros Hin. apply Hsame in Hin.
        apply (set_contains_spec hash) in Hin. congruence. }
    rewrite Hnew.
    destruct (bool_decide (key r ∉ seen) && Ustr.truthy (ministry r));
      apply IH; [|assumption].
    intros k. rewrite set_add_spec, elem_of_union, elem_of_singleton, Hsame. tauto.
Qed.

Lemma answered_then {A B : Type} (e : str -> bool) (m : asking A) (f : A -> asking B) :
  answered e (asking_then f m) =
  (fst (answered e (f (fst (answered e m)))),
   snd (answered e m) ++ snd (answered e (f (fst (answered e m))))).
Proof.
  induction m as [a | name k IH]; cbn [asking_then answered].
  - cbn [fst snd app]. now destruct (answered e (f a)).
  - rewrite IH. destruct (answered e (k (e name))) as [a names].
    cbn [fst snd app]. reflexivity.
Qed.

(** Asked one by one, the database gives the alias of [alias_of]. *)
Lemma alias_asked_value (e : str -> bool) (r : Row) :
  fst (answered e (alias_asked r)) = alias_of e r.
Proof.
  unfold alias_asked, alias_of.
  destruct (Ustr.truthy (expanded_from r) && Ustr.contains REGIONAL (bureau r));
    [|reflexivity].
  cbv zeta.
  destruct (negb (Ustr.eqb (Ustr.remove REGIONAL (bureau r)) (bureau r)));
    [|reflexivity].
  cbn [mbind asking_bind asking_then exists_in_db answered andb].
  destruct (e (Ustr.remove REGIONAL (bureau r)));
    cbn [mbind asking_bind asking_then exists_in_db answered andb fst];
    [|reflexivity].
  destruct (e (bureau r)); reflexivity.
Qed.

Lemma aliases_asked_value (e : str -> bool) (unique : list Row) :
  fst (answered e (aliases_asked unique)) = List.map (with_alias e) unique.
Proof.
  induction unique as [|r rs IH]; [reflexivity|].
  cbn [aliases_asked List.map mbind asking_bind].
  rewrite !answered_then. cbn [fst answered].
  rewrite IH, alias_asked_value. reflexivity.
Qed.

(** Two databases that answer alike on the names a computation asks the
    first one for give it the same result and are asked the same names. *)
Lemma answered_agree {A : Type} (p : asking A) (e1 e2 : str -> bool) :
  (forall name, name ∈ snd (answered e1 p) -> e1 name = e2 name) ->
  answered e1 p = answered e2 p.
Proof.
  induction p as [a | name k IH]; intros Hsame; cbn [answered] in *.
  - reflexivity.
  - destruct (answered e1 (k (e1 name))) as [a names] eqn:Hrun.
    cbn [snd] in Hsame. rewrite <- (Hsame name) by apply list_elem_of_here.
    rewrite <- IH, Hrun; [reflexivity|].
    intros n Hn. apply Hsame. rewrite Hrun in Hn.
    apply list_elem_of_further, Hn.
Qed.

Lemma run_records (hash : Key -> N) (e : str -> bool) (raw_pages : list str) :
  records (main_run hash e raw_pages) = recover raw_pages e.
Proof.
  unfold main_run, recover. destruct (parse_pages raw_pages) as [rs | x]; [|reflexivity].
  cbn [mbind result_bind records].
  rewrite (unique_rows_dedup hash rs [] ∅ []).
  - pose proof (aliases_asked_value e (dedup ∅ [] rs)) as Hv.
    destruct (answered e (aliases_asked (dedup ∅ [] rs))) as [outs names].
    cbn [fst] in Hv. now subst.
  - intros k. split; intros H; [inversion H | now apply not_elem_of_empty in H].
Qed.

(** C10: two runs on the same pages publish the same records, field for
    field and in the same order, and look up the same names, when each
    run keeps its set of seen keys under the hash function of its own
    process and asks its own database, and the two databases answer
    alike on every name the first run looks up.  The records are those of
    [recover]. *)
Theorem recover_deterministic (raw_pages : list str) (hash1 hash2 : Key -> N)
    (e1 e2 : str -> bool) :
  (forall name, name ∈ queried (main_run hash1 e1 raw_pages) -> e1 name = e2 name) ->
  main_run hash1 e1 raw_pages = main_run hash2 e2 raw_pages
  /\ records (main_run hash1 e1 raw_pages) = recover raw_pages e1
  /\ recover raw_pages e1 = recover raw_pages e2.
Proof.
  intros Hsame.
  assert (Hrun : main_run hash1 e1 raw_pages = main_run hash2 e2 raw_pages).
  { revert Hsame. unfold main_run.
    destruct (parse_pages raw_pages) as [rs | x]; [|reflexivity].
    cbn [mbind result_bind queried].
    rewrite (unique_rows_dedup hash1 rs [] ∅ []), (unique_rows_dedup hash2 rs [] ∅ []);
      try (intros k; split; intros H; [inversion H | now apply not_elem_of_empty in H]).
    intros Hsame. f_equal. apply answered_agree. intros name Hname.
    apply Hsame. now destruct (answered e1 (aliases_asked (dedup ∅ [] rs))). }
  split; [exact Hrun|]. split; [apply run_records|].
  rewrite <- (run_records hash1 e1), <- (run_records hash2 e2). now rewrite Hrun.
Qed.

Lemma recover_deterministic_witness :
  main_run (fun _ => 0) alias_demo_db run_demo_pages
  = main_run (fun k => N.of_nat (length (k.1.2)))
        (fun name => alias_demo_db name || Ustr.eqb name (u "関東地方防衛局"))
        run_demo_pages.
Proof.
  refine (proj1 (recover_deterministic run_demo_pages _ _ _ _ _)).
  intros name Hname.
  assert (Hq : queried (main_run (fun _ => 0) alias_demo_db run_demo_pages)
               = [u "九州防衛局"; u "九州地方防衛局"; u "関東防衛局"])
    by (vm_compute; reflexivity).
  rewrite Hq in Hname. rewrite !elem_of_cons in Hname.
  destruct Hname as [-> | [-> | [-> | Hname]]];
    [vm_compute; reflexivity .. | inversion Hname].
Defined.

(** ** Block joining (C3) *)

(** C3, as the code has it: while the counter of unclosed ［ is positive,
    a line that is not indented is appended to the current block, whether
    or not it has a forced-new shape; an indented line closes the block
    and opens the next one, brackets closed or not. *)
Theorem open_bracket_continuation (j : joiner) (raw_line c : str) :
  current j = Some c ->
  (0 < open_brackets j)%Z ->
  Ustr.strip raw_line <> [] ->
  match_ PAGE_NUMBER (Ustr.strip raw_line) = None ->
  join_line j raw_line =
  Ok (if has_indent raw_line
      then {| blocks := blocks j ++ [c];
              current := Some (Ustr.strip raw_line);
              open_brackets := bracket_delta (Ustr.strip raw_line) |}
      else {| blocks := blocks j;
              current := Some (c ++ Ustr.strip raw_line);
              open_brackets :=
                Z.max 0 (open_brackets j + bracket_delta (Ustr.strip raw_line)) |}).
Proof.
  intros Hc Hopen Hline Hpage. unfold join_line.
  apply truthy_true in Hline. rewrite Hline, Hpage, Hc. cbn [negb is_some].
  apply Z.ltb_lt in Hopen. rewrite Hopen.
  destruct (has_indent raw_line);
    destruct (is_some (match_ FORCE_NEW (Ustr.strip raw_line))); reflexivity.
Qed.

Lemma open_bracket_continuation_witness :
  join_line open_block_demo (u "＜人事課］") =
  Ok {| blocks := []; current := Some (u "総務局［総務課、＜人事課］");
        open_brackets := 0 |}.
Proof.
  apply (open_bracket_continuation open_block_demo (u "＜人事課］")
                                   (u "総務局［総務課、"));
    [reflexivity | reflexivity | discriminate | reflexivity].
Defined.

(** C3 as stated fails: with ［ still open, an indented line is not
    appended; it starts a block of its own. *)
Lemma indented_line_ends_open_block :
  join_line open_block_demo (u "  人事局［人事課］") =
  Ok {| blocks := [u "総務局［総務課、"]; current := Some (u "人事局［人事課］");
        open_brackets := 0 |}
  /\ join_continuation_lines (u "  総務局［総務課、" ++ [NL] ++ u "  人事局［人事課］") =
     Ok [u "総務局［総務課、"; u "人事局［人事課］"].
Proof. split; vm_compute; reflexivity. Qed.

(** ** The classifier, rule by rule *)

Lemma emit_nil (st : State) : emit st [] = st.
Proof. destruct st. unfold emit. simpl. now rewrite app_nil_r. Qed.

Lemma emit_emit (st : State) (a b : list Row) :
  emit (emit st a) b = emit st (a ++ b).
Proof. unfold emit. simpl. now rewrite app_assoc. Qed.

Lemma header_rules_none (st : State) (norm : str) :
  is_header norm = false -> header_rules st norm = None.
Proof.
  unfold is_header, header_rules.
  destruct (match_ MINISTRY_NUMBERED norm).
  - destruct (negb _); discriminate.
  - destruct (_ && _ && _ && _); [discriminate|].
    destruct (match_ CATEGORY_LINE norm) as [cat_m|]; [|reflexivity].
    destruct (is_some (search CATEGORY_END (group cat_m 1)));
      [discriminate | reflexivity].
Qed.

(** When no expansion takes place the pending bureau is dropped and the
    other rules are tried in turn. *)
Lemma classify_without_expansion (st : State) (norm : str) (nia : bool) :
  angle_fires st norm = false ->
  classify st norm nia =
  Ok (match header_rules (set_prev st [] []) norm with
      | Some st' => st'
      | None =>
        match match_ BRACKETED norm with
        | Some m => bracket_rule (set_prev st [] []) m nia
        | None => bare_rule (set_prev st [] []) norm nia
        end
      end).
Proof.
  unfold angle_fires, classify. intros H.
  destruct (match_ ANGLE_BLOCK norm), (Ustr.truthy (prev_bureau_base st));
    try discriminate;
    destruct (header_rules (set_prev st [] []) norm);
    try reflexivity; destruct (match_ BRACKETED norm); reflexivity.
Qed.

Lemma count_suffix_check_context (st : State) (name : str) (nia : bool) :
  current_ministry (count_suffix_check st name nia) = current_ministry st
  /\ current_category (count_suffix_check st name nia) = current_category st.
Proof.
  unfold count_suffix_check, sibling_check.
  destruct (_ && _); [|split; reflexivity].
  destruct (_ && _ && _ && _); split; reflexivity.
Qed.

Lemma row_of_context (st st' : State) (b s from : str) :
  current_ministry st' = current_ministry st ->
  current_category st' = current_category st ->
  row_of st' b s from = row_of st b s from.
Proof. unfold row_of. now intros -> ->. Qed.

Lemma bare_bureau_bound (norm : str) :
  bare_bureau norm = true ->
  Ustr.truthy norm && (2 <=? length norm)%nat && (length norm <=? 35)%nat = true.
Proof.
  unfold bare_bureau. rewrite !andb_true_iff.
  intros [[[[_ Hlo] Hhi] _] _].
  apply Nat.leb_le in Hlo, Hhi.
  assert (Ustr.truthy norm = true) as -> by (destruct norm; [simpl in Hlo; lia | reflexivity]).
  split; [split; [reflexivity|] |]; apply Nat.leb_le; lia.
Qed.

(** A bureau line runs the count-suffix check and then emits its own
    rows. *)
Lemma classify_bureau_line (st : State) (norm name : str) (secs : list str)
      (nia : bool) :
  bureau_line norm name secs ->
  angle_fires st norm = false ->
  classify st norm nia =
  Ok (emit (count_suffix_check (set_prev st [] []) name nia)
           (own_rows st name secs)).
Proof.
  intros Hline Hquiet. rewrite classify_without_expansion by assumption.
  destruct Hline as [m Hhead Hm | Hhead Hm Hbare];
    rewrite (header_rules_none _ _ Hhead), Hm; f_equal.
  - unfold bracket_rule, own_rows.
    set (st1 := count_suffix_check _ _ _).
    destruct (count_suffix_check_context (set_prev st [] []) (Ustr.strip (group m 1)) nia)
      as [Hmin Hcat]. fold st1 in Hmin, Hcat.
    assert (Hrow : forall b s f, row_of st1 b s f = row_of st b s f)
      by (intros; apply row_of_context; assumption).
    destruct (_ && _ && _).
    + rewrite emit_emit. f_equal. simpl. rewrite Hrow. f_equal.
      apply List.map_ext. intros; apply Hrow.
    + simpl. f_equal. apply List.map_ext. intros; apply Hrow.
  - unfold bare_rule, own_rows. rewrite Hbare, (bare_bureau_bound _ Hbare).
    simpl. f_equal. f_equal.
    destruct (count_suffix_check_context (set_prev st [] []) norm nia).
    apply row_of_context; assumption.
Qed.

Lemma numbered_check (st : State) (name : str) (nia : bool) :
  numbered name ->
  count_suffix_check st name nia = sibling_check st (strip_count name) name nia.
Proof.
  intros [Hne Horg]. unfold count_suffix_check.
  apply ustr_eqb_neq in Hne. rewrite Hne.
  destruct (search ORG_ENDS (strip_count name)); [reflexivity | congruence].
Qed.

Lemma sibling_check_invalid (st : State) (cs name : str) (nia : bool) :
  last_count_str st = [] ->
  sibling_check st cs name nia = set_prev st cs name.
Proof.
  intros H. unfold sibling_check. rewrite H.
  destruct (count_suffix name); simpl; now rewrite ?andb_false_r.
Qed.

Lemma sibling_check_reuse (st : State) (cs name : str) :
  last_prefixes st <> [] ->
  count_suffix name <> [] ->
  count_suffix name = last_count_str st ->
  sibling_check st cs name false =
  set_last (emit st (expanded_rows st (last_prefixes st) cs name))
           (last_prefixes st) [].
Proof.
  intros Hp Hc He. unfold sibling_check. rewrite <- He, ustr_eqb_refl.
  apply truthy_true in Hc. rewrite Hc.
  destruct (last_prefixes st); [congruence | reflexivity].
Qed.

Lemma count_suffix_check_invalid (st : State) (name : str) (nia : bool) :
  last_count_str st = [] ->
  last_count_str (count_suffix_check st name nia) = [].
Proof.
  intros H. unfold count_suffix_check.
  destruct (_ && _); [|assumption].
  rewrite sibling_check_invalid by assumption. exact H.
Qed.

Lemma header_rules_invalid (st st' : State) (norm : str) :
  header_rules st norm = Some st' -> last_count_str st' = last_count_str st.
Proof.
  unfold header_rules.
  destruct (match_ MINISTRY_NUMBERED norm).
  - destruct (negb _); intros [= <-]; reflexivity.
  - destruct (_ && _ && _ && _); [intros [= <-]; reflexivity|].
    destruct (match_ CATEGORY_LINE norm); [|discriminate].
    destruct (is_some _); [intros [= <-]; reflexivity | discriminate].
Qed.

(** Once invalidated, the cached count stays empty until an expansion. *)
Lemma classify_keeps_invalid (st st' : State) (norm : str) (nia : bool) :
  angle_fires st norm = false ->
  classify st norm nia = Ok st' ->
  last_count_str st = [] -> last_count_str st' = [].
Proof.
  intros Hq Hc Hinv. rewrite classify_without_expansion in Hc by assumption.
  injection Hc as <-.
  destruct (header_rules (set_prev st [] []) norm) eqn:Hh.
  - apply header_rules_invalid in Hh. rewrite Hh. exact Hinv.
  - destruct (match_ BRACKETED norm).
    + unfold bracket_rule.
      set (st1 := count_suffix_check _ _ _).
      assert (last_count_str st1 = []) by (apply count_suffix_check_invalid; exact Hinv).
      destruct (_ && _ && _); assumption.
    + unfold bare_rule. destruct (bare_bureau norm); [|exact Hinv].
      simpl. apply count_suffix_check_invalid. exact Hinv.
Qed.

Lemma quiet_keeps_invalid (st st' : State) :
  quiet st st' -> last_count_str st = [] -> last_count_str st' = [].
Proof.
  induction 1 as [|st norm nia st1 st2 Hq Hc _ IH]; [easy|].
  intros Hinv. apply IH. eapply classify_keeps_invalid; eassumption.
Qed.

(** ** Sibling carry-over (C1) *)

(** C1: a bureau line whose digit suffix equals the cached count, with no
    angle-bracket block next and cached prefixes at hand, emits one row
    per cached prefix (prefix + stripped name, no section, expanded from
    the raw name) before its own rows, and empties the cached count; from
    then on, as long as no expansion takes place, every numbered bureau
    line emits its own rows only and is stashed as the pending bureau. *)
Theorem sibling_carry_once (st : State) (norm name : str) (secs : list str) :
  bureau_line norm name secs ->
  angle_fires st norm = false ->
  numbered name ->
  last_prefixes st <> [] ->
  count_suffix name <> [] ->
  count_suffix name = last_count_str st ->
  exists st1,
    classify st norm false = Ok st1
    /\ rows st1 = rows st
                  ++ expanded_rows st (last_prefixes st) (strip_count name) name
                  ++ own_rows st name secs
    /\ last_count_str st1 = []
    /\ forall st2, quiet st1 st2 ->
       forall norm' name' secs' next_is_angle,
         bureau_line norm' name' secs' ->
         angle_fires st2 norm' = false ->
         numbered name' ->
         exists st3,
           classify st2 norm' next_is_angle = Ok st3
           /\ rows st3 = rows st2 ++ own_rows st2 name' secs'
           /\ prev_bureau_base st3 = strip_count name'
           /\ prev_bureau_full st3 = name'.
Proof.
  intros Hline Hq Hnum Hp Hc He.
  eexists. split; [|split; [|split]].
  - rewrite (classify_bureau_line _ _ _ _ _ Hline Hq), numbered_check by assumption.
    rewrite sibling_check_reuse by assumption. reflexivity.
  - simpl. now rewrite <- app_assoc.
  - reflexivity.
  - intros st2 Hquiet norm' name' secs' nia Hline' Hq' Hnum'.
    apply quiet_keeps_invalid in Hquiet; [|reflexivity].
    eexists. split; [|split; [|split]].
    + rewrite (classify_bureau_line _ _ _ _ _ Hline' Hq'), numbered_check by assumption.
      rewrite sibling_check_invalid by exact Hquiet. reflexivity.
    + reflexivity.
    + reflexivity.
    + reflexivity.
Qed.

Lemma sibling_carry_once_witness :
  exists st1,
    classify sibling_demo (u "管区警察局６") false = Ok st1
    /\ List.map bureau (rows st1) =
       [u "東北管区警察局"; u "関東管区警察局"; u "管区警察局６"]
    /\ List.map expanded_from (rows st1) =
       [u "管区警察局６"; u "管区警察局６"; []]
    /\ last_count_str st1 = []
    /\ exists st3,
         classify st1 (u "管区警察学校６") false = Ok st3
         /\ List.map bureau (rows st3) =
            List.map bureau (rows st1) ++ [u "管区警察学校６"]
         /\ prev_bureau_base st3 = u "管区警察学校".
Proof.
  assert (Hbare : forall norm, is_header norm = false ->
                    match_ BRACKETED norm = None ->
                    bare_bureau norm = true -> bureau_line norm norm [])
    by (intros; now apply without_sections).
  destruct (sibling_carry_once sibling_demo (u "管区警察局６") (u "管区警察局６") [])
    as (st1 & Hc & Hrows & Hinv & Hlater);
    [ apply Hbare; reflexivity | reflexivity
    | split; vm_compute; discriminate | discriminate | discriminate
    | reflexivity | ].
  exists st1. split; [exact Hc|]. rewrite Hrows.
  split; [reflexivity|]. split; [reflexivity|]. split; [exact Hinv|].
  destruct (Hlater st1 (quiet_here st1) (u "管区警察学校６") (u "管区警察学校６") [] false)
    as (st3 & Hc3 & Hrows3 & Hbase & _);
    [ apply Hbare; reflexivity
    | reflexivity
    | split; vm_compute; discriminate | ].
  exists st3. split; [exact Hc3|]. rewrite Hrows3, Hrows, Hbase.
  split; reflexivity.
Defined.

(** ** The literal row (C9) *)

(** C9: a numbered bureau line, whether it reuses the cached prefixes or
    is stashed for an expansion, emits the row of its own literal name
    (digits attached, no section, not expanded) whenever the name has 2 to
    35 characters, after any carried rows and before its sections. *)
Theorem literal_row_kept (st : State) (norm name : str) (secs : list str)
        (next_is_angle : bool) :
  bureau_line norm name secs ->
  angle_fires st norm = false ->
  numbered name ->
  (2 <= length name <= 35)%nat ->
  exists st' carried,
    classify st norm next_is_angle = Ok st'
    /\ rows st' = rows st ++ carried
                  ++ {| ministry := current_ministry st;
                        category := current_category st;
                        bureau := name; section := []; expanded_from := [] |}
                  :: List.map (fun sec => row_of st name sec []) secs
    /\ ((carried = expanded_rows st (last_prefixes st) (strip_count name) name
         /\ last_count_str st' = [])
        \/ (carried = []
            /\ prev_bureau_base st' = strip_count name
            /\ prev_bureau_full st' = name)).
Proof.
  intros Hline Hq Hnum [Hlo Hhi].
  rewrite (classify_bureau_line _ _ _ _ _ Hline Hq), numbered_check by assumption.
  assert (Hown : own_rows st name secs =
                 row_of st name [] [] :: List.map (fun sec => row_of st name sec []) secs).
  { unfold own_rows.
    assert (Ustr.truthy name = true) as -> by (destruct name; [simpl in Hlo; lia | reflexivity]).
    apply Nat.leb_le in Hlo, Hhi. rewrite Hlo, Hhi. reflexivity. }
  rewrite Hown. unfold sibling_check.
  destruct (_ && _ && _ && _).
  - eexists _, _. split; [reflexivity|]. split.
    + simpl. rewrite <- app_assoc. reflexivity.
    + left. split; reflexivity.
  - eexists _, []. split; [reflexivity|]. split.
    + reflexivity.
    + right. repeat split; reflexivity.
Qed.

Lemma literal_row_kept_witness :
  exists st',
    classify sibling_demo (u "管区警察局６［総務課］") true = Ok st'
    /\ List.map bureau (rows st') = [u "管区警察局６"; u "管区警察局６"]
    /\ List.map section (rows st') = [[]; u "総務課"]
    /\ prev_bureau_base st' = u "管区警察局".
Proof.
  destruct (literal_row_kept sibling_demo (u "管区警察局６［総務課］")
              (u "管区警察局６") [u "総務課"] true)
    as (st' & carried & Hc & Hrows & Hcase).
  - exact (with_sections (u "管区警察局６［総務課］")
             {| group0 := u "管区警察局６［総務課］";
                groups := [u "管区警察局６"; u "総務課"; []] |}
             eq_refl eq_refl).
  - reflexivity.
  - split; vm_compute; discriminate.
  - vm_compute. lia.
  - exists st'. split; [exact Hc|]. clear Hrows Hcase.
    vm_compute in Hc. injection Hc as <-. repeat split.
Defined.

(** ** No exception is raised (C8) *)

Lemma bind_ok {A B} (m : result A) (f : A -> result B) :
  (exists a, m = Ok a) -> (forall a, exists b, f a = Ok b) ->
  exists b, (m ≫= f) = Ok b.
Proof. intros [a ->] Hf. apply Hf. Qed.

Lemma has_key_getitem `{Countable K} {V} (d : gmap K V) (k : K) :
  has_key d k = true -> exists v, getitem d k = Ok v.
Proof.
  unfold has_key, getitem. destruct (d !! k) as [v|]; [eauto | discriminate].
Qed.

Lemma split1_found (c : N) (s : str) :
  Ustr.mem c s = true -> exists a b, Ustr.split1 c s = (a, Some b).
Proof.
  unfold Ustr.mem. induction s as [|x s IH]; [discriminate|].
  cbn [List.existsb Ustr.split1]. rewrite (N.eqb_sym c x).
  destruct (x =? c).
  - eauto.
  - intros H. destruct (IH H) as (a & b & ->). eauto.
Qed.

Lemma kanji_to_int_ok (s : str) : exists n, _kanji_to_int s = Ok n.
Proof.
  unfold _kanji_to_int.
  destruct (has_key _KANJI_NUM s) eqn:Hk; [now apply has_key_getitem|].
  destruct (Ustr.eqb s (u "十")); [eauto|].
  destruct (Ustr.startswith (u "十") s); [eauto|].
  destruct (Ustr.endswith (u "十") s) eqn:He.
  - destruct s as [|c s]; [discriminate He | cbn; eauto].
  - destruct (Ustr.mem (ch "十") s) eqn:Hm; [|eauto].
    destruct (split1_found _ _ Hm) as (a & b & ->). eauto.
Qed.

Lemma ordinal_names_ok (ids : list Z) : exists names, ordinal_names ids = Ok names.
Proof.
  induction ids as [|i ids [names IH]]; cbn [ordinal_names]; [eauto|].
  destruct (has_key _ARABIC_KANJI i) eqn:Hk; [|eauto].
  destruct (has_key_getitem _ _ Hk) as [k ->]. rewrite IH. cbn. eauto.
Qed.

Lemma expand_item_ok (item : str) : exists xs, _expand_item item = Ok xs.
Proof.
  unfold _expand_item. destruct (match_ RANGE_ITEM (Ustr.strip item)) as [m|]; [|eauto].
  apply bind_ok; [apply kanji_to_int_ok | intros start].
  apply bind_ok; [apply kanji_to_int_ok | intros end_].
  apply ordinal_names_ok.
Qed.

Lemma extend_all_ok (items acc : list str) : exists xs, extend_all items acc = Ok xs.
Proof.
  revert acc; induction items as [|item items IH]; intros acc; cbn [extend_all];
    [eauto|].
  apply bind_ok; [apply expand_item_ok | intros xs; apply IH].
Qed.

Lemma expand_angle_content_ok (text : str) :
  exists prefixes, expand_angle_content text = Ok prefixes.
Proof. apply extend_all_ok. Qed.

Lemma join_line_ok (j : joiner) (raw_line : str) :
  exists j', join_line j raw_line = Ok j'.
Proof.
  unfold join_line.
  destruct (negb _); [eauto|].
  destruct (is_some (match_ PAGE_NUMBER _)); [eauto|].
  destruct (current j); destruct (has_indent raw_line);
    destruct (is_some (match_ FORCE_NEW _)); cbn;
    try destruct (0 <? open_brackets j)%Z; cbn; eauto.
Qed.

Lemma join_lines_ok (lines : list str) (j : joiner) :
  exists j', join_lines j lines = Ok j'.
Proof.
  revert j; induction lines as [|l lines IH]; intros j; cbn [join_lines]; [eauto|].
  apply bind_ok; [apply join_line_ok | intros j'; apply IH].
Qed.

Lemma join_continuation_lines_ok (raw_text : str) :
  exists bs, join_continuation_lines raw_text = Ok bs.
Proof.
  unfold join_continuation_lines.
  apply bind_ok; [apply join_lines_ok | eauto].
Qed.

Lemma classify_ok (st : State) (norm : str) (nia : bool) :
  exists st', classify st norm nia = Ok st'.
Proof.
  destruct (angle_fires st norm) eqn:Hq.
  - unfold classify. unfold angle_fires in Hq.
    destruct (match_ ANGLE_BLOCK norm) as [m|]; [|discriminate].
    destruct (Ustr.truthy (prev_bureau_base st)); [|discriminate].
    apply bind_ok; [apply expand_angle_content_ok | eauto].
  - rewrite classify_without_expansion by assumption. eauto.
Qed.

Lemma lookahead_ok (next_page : option str) (rest : list str) :
  exists nn, lookahead next_page rest = Ok nn.
Proof.
  unfold lookahead. destruct (Ustr.truthy _); [eauto|].
  destruct next_page; [|eauto].
  apply bind_ok; [apply join_continuation_lines_ok | eauto].
Qed.

Lemma scan_blocks_ok (next_page : option str) (bs : list str) (st : State) :
  exists st', scan_blocks next_page st bs = Ok st'.
Proof.
  revert st; induction bs as [|b bs IH]; intros st; cbn [scan_blocks]; [eauto|].
  destruct (negb _); [apply IH|].
  apply bind_ok; [apply lookahead_ok | intros nn].
  apply bind_ok; [apply classify_ok | intros st'; apply IH].
Qed.

Lemma scan_pages_ok (pages : list str) (st : State) :
  exists st', scan_pages st pages = Ok st'.
Proof.
  revert st; induction pages as [|p pages IH]; intros st; cbn [scan_pages]; [eauto|].
  apply bind_ok; [apply join_continuation_lines_ok | intros bs].
  apply bind_ok; [apply scan_blocks_ok | intros st'; apply IH].
Qed.

Lemma parse_pages_ok (raw_pages : list str) :
  exists rs, parse_pages raw_pages = Ok rs.
Proof.
  unfold parse_pages. apply bind_ok; [apply scan_pages_ok | eauto].
Qed.

(** C8: on every sequence of pages the recovery returns a list of
    records, no exception raised; a block that no rule recognises adds no
    row and changes nothing but the pending bureau, which is cleared. *)
Theorem recovery_never_raises
        (raw_pages : list str) (_exists_in_db : str -> bool)
        (st : State) (norm : str) (next_is_angle : bool) :
  (exists out, recover raw_pages _exists_in_db = Ok out)
  /\ (angle_fires st norm = false ->
      is_header norm = false ->
      match_ BRACKETED norm = None ->
      bare_bureau norm = false ->
      classify st norm next_is_angle =
      Ok {| rows := rows st;
            current_ministry := current_ministry st;
            current_category := current_category st;
            prev_bureau_base := []; prev_bureau_full := [];
            last_prefixes := last_prefixes st;
            last_count_str := last_count_str st |}).
Proof.
  split.
  - unfold recover. apply bind_ok; [apply parse_pages_ok | eauto].
  - intros Hq Hh Hb Hbare.
    rewrite classify_without_expansion by assumption.
    rewrite (header_rules_none _ _ Hh), Hb. unfold bare_rule. now rewrite Hbare.
Qed.

Lemma recovery_never_raises_witness :
  (exists out,
      recover [u "＜第一～第九十九、［［" ++ [NL] ++ u "］＞＞（"; u "令和７年現在"]
              alias_demo_db = Ok out)
  /\ classify sibling_demo (u "令和７年現在") false =
     Ok sibling_demo.
Proof.
  destruct (recovery_never_raises
              [u "＜第一～第九十九、［［" ++ [NL] ++ u "］＞＞（"; u "令和７年現在"]
              alias_demo_db sibling_demo (u "令和７年現在") false) as [Hrun Hskip].
  split; [exact Hrun | apply Hskip; reflexivity].
Defined.

(** ** Angle-bracket expansion (C2) *)

Lemma rep_unfold (k : cls) (lo : nat) (hi : option nat) (greedy : bool)
      (n pos : nat) (caps : list str) (kt : kont) (s : str) :
  rep k lo hi greedy n pos caps kt s =
  let more (_ : unit) :=
      match s with
      | c :: s' =>
        if cls_match k c && below hi n
        then rep k lo hi greedy (S n) (S pos) caps kt s'
        else None
      | [] => None
      end in
  let stop (_ : unit) := if (lo <=? n)%nat then kt pos caps s else None in
  if greedy
  then match more tt with Some m => Some m | None => stop tt end
  else match stop tt with Some m => Some m | None => more tt end.
Proof. destruct s; reflexivity. Qed.

Lemma lazy_dot_reaches (kt : kont) (stopper : N) (caps : list str) (rest : str)
      (m : found) (content : str) :
  forall n pos,
    Forall (fun c => c <> NL) content ->
    (forall p x t, In x content -> kt p caps (x :: t) = None) ->
    (n = 0%nat -> content <> []) ->
    kt (pos + length content)%nat caps (stopper :: rest) = Some m ->
    rep Dot 1 None false n pos caps kt (content ++ stopper :: rest) = Some m.
Proof.
  induction content as [|x content IH]; intros n pos Hnl Hfail Hne Hend.
  - rewrite app_nil_l, rep_unfold. cbv zeta.
    destruct n; [now contradiction Hne|].
    rewrite Nat.add_0_r in Hend. change (1 <=? S n)%nat with true. cbv iota. now rewrite Hend.
  - rewrite rep_unfold. cbv zeta. rewrite <- app_comm_cons.
    rewrite (Hfail pos x) by (left; reflexivity).
    assert ((if (1 <=? n)%nat then @None found else None) = None) as ->
        by (destruct (1 <=? n)%nat; reflexivity).
    inversion Hnl as [|? ? Hx Hnl']; subst.
    cbn [cls_match below]. apply N.eqb_neq in Hx. rewrite Hx. cbn [negb andb].
    apply IH; [assumption | | discriminate | ].
    + intros p y t Hy. apply Hfail. now right.
    + replace (S pos + length content)%nat with (pos + length (x :: content))%nat
        by (simpl; lia). exact Hend.
Qed.

Lemma angle_block_match (content rest : str) :
  content <> [] ->
  Forall (fun c => c <> NL /\ c <> ch "＞") content ->
  exists m, match_ ANGLE_BLOCK (ch "＜" :: content ++ ch "＞" :: rest) = Some m
            /\ group m 1 = content.
Proof.
  intros Hne Hall.
  unfold match_, at_pos, ANGLE_BLOCK, lit, plus_lazy.
  cbn [run Nat.eqb]. cbn [cls_match]. rewrite N.eqb_refl.
  erewrite (lazy_dot_reaches _ _ _ _ (_, _)).
  5: { cbn [run cls_match]. rewrite N.eqb_refl. reflexivity. }
  - eexists. split; [reflexivity|]. unfold group. cbn [groups Nat.pred nth app].
    replace (1 + length content - 1)%nat with (length content) by lia.
    apply take_app_length.
  - eapply Forall_impl; [exact Hall|]. now intros c [H _].
  - intros p x t Hx. cbn [run cls_match].
    rewrite Forall_forall in Hall. apply list_elem_of_In, Hall in Hx as [_ Hx].
    apply N.eqb_neq in Hx. now rewrite Hx.
  - intros _. exact Hne.
Qed.

Lemma ordinal_names_spec (ids : list Z) :
  ordinal_names ids = Ok (omap ordinal ids).
Proof.
  induction ids as [|i ids IH]; [reflexivity|].
  cbn [ordinal_names omap list_omap]. unfold has_key, getitem, ordinal.
  destruct (_ARABIC_KANJI !! i) as [k|]; cbn; rewrite IH; reflexivity.
Qed.

Lemma extend_all_spec (items acc : list str) :
  exists per_item,
    Forall2 (fun item xs => _expand_item item = Ok xs) items per_item
    /\ extend_all items acc = Ok (acc ++ concat per_item).
Proof.
  revert acc; induction items as [|item items IH]; intros acc.
  - exists []. split; [constructor | cbn; now rewrite app_nil_r].
  - destruct (expand_item_ok item) as [xs Hxs].
    destruct (IH (acc ++ xs)) as (per_item & Hall & Hrest).
    exists (xs :: per_item). split; [now constructor|].
    cbn [extend_all]. rewrite Hxs. cbn. rewrite Hrest.
    now rewrite <- app_assoc.
Qed.

Lemma arabic_kanji_cases (i : Z) (k : str) :
  _ARABIC_KANJI !! i = Some k ->
  In (i, k) [ (1%Z, u "一"); (2%Z, u "二"); (3%Z, u "三"); (4%Z, u "四");
              (5%Z, u "五"); (6%Z, u "六"); (7%Z, u "七"); (8%Z, u "八");
              (9%Z, u "九"); (10%Z, u "十"); (11%Z, u "十一"); (12%Z, u "十二") ].
Proof.
  intros H. apply list_elem_of_In. apply elem_of_list_to_map_2. exact H.
Qed.

Lemma range_item_in_vocabulary (a b : Z) (ka kb : str) :
  _ARABIC_KANJI !! a = Some ka ->
  _ARABIC_KANJI !! b = Some kb ->
  _expand_item (u "第" ++ ka ++ u "～第" ++ kb) =
  Ok (List.map (fun i => u "第" ++ default [] (_ARABIC_KANJI !! i))
               (seqZ a (b - a + 1))).
Proof.
  intros Ha Hb. apply arabic_kanji_cases in Ha, Hb. cbn [In] in Ha, Hb.
  repeat (destruct Ha as [Ha|Ha]; [injection Ha as <- <-|]); try contradiction;
    repeat (destruct Hb as [Hb|Hb]; [injection Hb as <- <-|]); try contradiction;
    vm_compute; reflexivity.
Qed.

Lemma range_item_refused (s : str) :
  head s <> Some (ch "第") -> match_ RANGE_ITEM s = None.
Proof.
  intros Hhead. unfold match_, at_pos, RANGE_ITEM, lit.
  cbn [run Nat.eqb cls_match]. destruct s as [|c s]; [reflexivity|].
  destruct (c =? ch "第") eqn:Hc; [|reflexivity].
  apply N.eqb_eq in Hc. subst. now contradiction Hhead.
Qed.

Lemma literal_item (item : str) :
  match_ RANGE_ITEM (Ustr.strip item) = None ->
  _expand_item item =
  Ok (if Ustr.truthy (Ustr.strip item) then [Ustr.strip item] else []).
Proof. intros H. unfold _expand_item. now rewrite H. Qed.

Lemma kanji_num_cases (k : str) (d : Z) :
  _KANJI_NUM !! k = Some d ->
  In (k, d) [ (u "一", 1%Z); (u "二", 2%Z); (u "三", 3%Z); (u "四", 4%Z);
              (u "五", 5%Z); (u "六", 6%Z); (u "七", 7%Z); (u "八", 8%Z);
              (u "九", 9%Z) ].
Proof.
  intros H. apply list_elem_of_In. apply elem_of_list_to_map_2. exact H.
Qed.

(** How [_kanji_to_int] reads the numerals from one to ninety-nine. *)
Lemma kanji_readings :
  _kanji_to_int (u "十") = Ok 10%Z
  /\ forall k d,
       _KANJI_NUM !! k = Some d ->
       _kanji_to_int k = Ok d
       /\ _kanji_to_int (u "十" ++ k) = Ok (10 + d)%Z
       /\ _kanji_to_int (k ++ u "十") = Ok (d * 10)%Z
       /\ forall k' d',
            _KANJI_NUM !! k' = Some d' ->
            _kanji_to_int (k ++ u "十" ++ k') = Ok (d * 10 + d')%Z.
Proof.
  split; [reflexivity|]. intros k d H. apply kanji_num_cases in H. cbn [In] in H.
  repeat (destruct H as [H|H];
          [injection H as <- <-; repeat split; try (vm_compute; reflexivity);
           intros k' d' H'; apply kanji_num_cases in H'; cbn [In] in H';
           repeat (destruct H' as [H'|H'];
                   [injection H' as <- <-; vm_compute; reflexivity|]);
           contradiction|]).
  contradiction.
Qed.

(** C2: a block that starts with ＜content＞ while a bureau is pending
    expands the content, item by item, into a list of prefixes, emits one
    row per prefix in order (prefix + pending base, no section, expanded
    from the pending full name), caches the prefixes with the digit suffix
    of the full name, and clears the pending bureau.  A range item
    第X～第Y gives the ordinals of the interval from X to Y, those outside
    the vocabulary of one to twelve being dropped; any other item gives
    itself, without surrounding whitespace, or nothing when it is blank. *)
Theorem angle_expansion (st : State) (content rest : str) (next_is_angle : bool) :
  prev_bureau_base st <> [] ->
  content <> [] ->
  Forall (fun c => c <> NL /\ c <> ch "＞") content ->
  exists prefixes per_item,
    expand_angle_content content = Ok prefixes
    /\ Forall2 (fun item xs => _expand_item item = Ok xs)
               (Ustr.split (ch "、") content) per_item
    /\ prefixes = concat per_item
    /\ classify st (ch "＜" :: content ++ ch "＞" :: rest) next_is_angle =
       Ok {| rows := rows st
                     ++ List.map (fun prefix =>
                                    {| ministry := current_ministry st;
                                       category := current_category st;
                                       bureau := prefix ++ prev_bureau_base st;
                                       section := [];
                                       expanded_from := prev_bureau_full st |})
                                 prefixes;
             current_ministry := current_ministry st;
             current_category := current_category st;
             prev_bureau_base := []; prev_bureau_full := [];
             last_prefixes := prefixes;
             last_count_str := count_suffix (prev_bureau_full st) |}
    /\ (forall a b ka kb,
          _ARABIC_KANJI !! a = Some ka ->
          _ARABIC_KANJI !! b = Some kb ->
          _expand_item (u "第" ++ ka ++ u "～第" ++ kb) =
          Ok (List.map (fun i => u "第" ++ default [] (_ARABIC_KANJI !! i))
                       (seqZ a (b - a + 1))))
    /\ (forall item m first last,
          match_ RANGE_ITEM (Ustr.strip item) = Some m ->
          _kanji_to_int (group m 1) = Ok first ->
          _kanji_to_int (group m 2) = Ok last ->
          _expand_item item = Ok (omap ordinal (seqZ first (last + 1 - first))))
    /\ (forall item,
          match_ RANGE_ITEM (Ustr.strip item) = None ->
          _expand_item item =
          Ok (if Ustr.truthy (Ustr.strip item) then [Ustr.strip item] else []))
    /\ (forall item,
          head (Ustr.strip item) <> Some (ch "第") ->
          _expand_item item =
          Ok (if Ustr.truthy (Ustr.strip item) then [Ustr.strip item] else []))
    /\ _kanji_to_int (u "十") = Ok 10%Z
    /\ (forall k d,
          _KANJI_NUM !! k = Some d ->
          _kanji_to_int k = Ok d
          /\ _kanji_to_int (u "十" ++ k) = Ok (10 + d)%Z
          /\ _kanji_to_int (k ++ u "十") = Ok (d * 10)%Z
          /\ forall k' d',
               _KANJI_NUM !! k' = Some d' ->
               _kanji_to_int (k ++ u "十" ++ k') = Ok (d * 10 + d')%Z).
Proof.
  intros Hbase Hne Hall.
  destruct (extend_all_spec (Ustr.split (ch "、") content) [])
    as (per_item & Hitems & Hexp).
  exists (concat per_item), per_item.
  split; [exact Hexp|]. split; [exact Hitems|]. split; [reflexivity|].
  split; [|split; [|split; [|split; [|split]]]].
  - destruct (angle_block_match content rest Hne Hall) as (m & Hm & Hg).
    unfold classify. rewrite Hm. apply truthy_true in Hbase. rewrite Hbase, Hg.
    unfold expand_angle_content. rewrite Hexp. reflexivity.
  - apply range_item_in_vocabulary.
  - intros item m first last Hm Hfirst Hlast. unfold _expand_item.
    rewrite Hm, Hfirst, Hlast. cbn. apply ordinal_names_spec.
  - apply literal_item.
  - intros item Hhead. apply literal_item, range_item_refused, Hhead.
  - exact kanji_readings.
Qed.

Lemma angle_expansion_witness :
  classify angle_demo (u "＜第一～第三＞") false =
  Ok {| rows :=
          [ {| ministry := u "防衛省"; category := u "地方支分部局";
               bureau := u "第一防衛局"; section := [];
               expanded_from := u "九州防衛局１" |};
            {| ministry := u "防衛省"; category := u "地方支分部局";
               bureau := u "第二防衛局"; section := [];
               expanded_from := u "九州防衛局１" |};
            {| ministry := u "防衛省"; category := u "地方支分部局";
               bureau := u "第三防衛局"; section := [];
               expanded_from := u "九州防衛局１" |} ];
        current_ministry := u "防衛省"; current_category := u "地方支分部局";
        prev_bureau_base := []; prev_bureau_full := [];
        last_prefixes := [u "第一"; u "第二"; u "第三"];
        last_count_str := u "１" |}
  /\ classify angle_demo (u "＜東北、第十一～第十五、 関東＞54") false =
     Ok {| rows :=
             [ {| ministry := u "防衛省"; category := u "地方支分部局";
                  bureau := u "東北防衛局"; section := [];
                  expanded_from := u "九州防衛局１" |};
               {| ministry := u "防衛省"; category := u "地方支分部局";
                  bureau := u "第十一防衛局"; section := [];
                  expanded_from := u "九州防衛局１" |};
               {| ministry := u "防衛省"; category := u "地方支分部局";
                  bureau := u "第十二防衛局"; section := [];
                  expanded_from := u "九州防衛局１" |};
               {| ministry := u "防衛省"; category := u "地方支分部局";
                  bureau := u "関東防衛局"; section := [];
                  expanded_from := u "九州防衛局１" |} ];
           current_ministry := u "防衛省"; current_category := u "地方支分部局";
           prev_bureau_base := []; prev_bureau_full := [];
           last_prefixes := [u "東北"; u "第十一"; u "第十二"; u "関東"];
           last_count_str := u "１" |}.
Proof.
  split.
  - destruct (angle_expansion angle_demo (u "第一～第三") [] false)
      as (prefixes & per_item & Hexp & _ & _ & Hc & _).
    + discriminate.
    + discriminate.
    + repeat constructor; discriminate.
    + vm_compute in Hexp. injection Hexp as <-. exact Hc.
  - destruct (angle_expansion angle_demo (u "東北、第十一～第十五、 関東") (u "54") false)
      as (prefixes & per_item & Hexp & _ & _ & Hc & _).
    + discriminate.
    + discriminate.
    + vm_compute. repeat constructor; discriminate.
    + vm_compute in Hexp. injection Hexp as <-. exact Hc.
Defined.

(** ** Continuation joining, on the example of the specification (C5) *)

(** C5: the two raw lines join into one block, which normalises to
    大臣官房［官房長、公文書監理官］ and, in any state, is classified as
    the bureau 大臣官房 with the single section 公文書監理官; 官房長 does
    not end in a section character and is left out. *)
Theorem continuation_example (st : State) (next_is_angle : bool) :
  join_continuation_lines
    (u "  大 臣 官 房 ［ 官 房 長" ++ [NL] ++ u "、 公 文 書 監 理 官 ］") =
  Ok [u "大 臣 官 房 ［ 官 房 長、 公 文 書 監 理 官 ］"]
  /\ normalize_line (u "大 臣 官 房 ［ 官 房 長、 公 文 書 監 理 官 ］") =
     u "大臣官房［官房長、公文書監理官］"
  /\ classify st (u "大臣官房［官房長、公文書監理官］") next_is_angle =
     Ok {| rows := rows st
                   ++ [ {| ministry := current_ministry st;
                           category := current_category st;
                           bureau := u "大臣官房"; section := [];
                           expanded_from := [] |};
                        {| ministry := current_ministry st;
                           category := current_category st;
                           bureau := u "大臣官房"; section := u "公文書監理官";
                           expanded_from := [] |} ];
           current_ministry := current_ministry st;
           current_category := current_category st;
           prev_bureau_base := []; prev_bureau_full := [];
           last_prefixes := last_prefixes st;
           last_count_str := last_count_str st |}
  /\ extract_bureaus_and_sections (u "官房長、公文書監理官") = [u "公文書監理官"]
  /\ search SECTION_ENDINGS (u "官房長") = None
  /\ is_some (search SECTION_ENDINGS (u "公文書監理官")) = true
  /\ (2 <= length (u "公文書監理官"))%nat
  /\ parse_pages
       [u "  大 臣 官 房 ［ 官 房 長" ++ [NL] ++ u "、 公 文 書 監 理 官 ］"] =
     Ok [ {| ministry := []; category := []; bureau := u "大臣官房";
             section := []; expanded_from := [] |};
          {| ministry := []; category := []; bureau := u "大臣官房";
             section := u "公文書監理官"; expanded_from := [] |} ].
Proof.
  split; [vm_compute; reflexivity|]. split; [vm_compute; reflexivity|].
  split.
  - assert (Hline : bureau_line (u "大臣官房［官房長、公文書監理官］")
                                (u "大臣官房") [u "公文書監理官"]).
    { exact (with_sections (u "大臣官房［官房長、公文書監理官］")
               {| group0 := u "大臣官房［官房長、公文書監理官］";
                  groups := [u "大臣官房"; u "官房長、公文書監理官"; []] |}
               eq_refl eq_refl). }
    rewrite (classify_bureau_line _ _ _ _ _ Hline) by reflexivity.
    reflexivity.
  - repeat split; try (vm_compute; reflexivity). vm_compute. lia.
Qed.

(** * Further properties of the script *)

(** ** Whitespace removal *)

Lemma span_le (k : cls) (s : str) : (span k s <= length s)%nat.
Proof.
  induction s as [|c s IH]; simpl; [lia|]. destruct (cls_match k c); simpl; lia.
Qed.

(** A greedy run of one class, followed by nothing else, takes every
    leading character of the class. *)
Lemma rep_greedy_accept (k : cls) (lo : nat) (s : str) :
  forall n pos caps,
    rep k lo None true n pos caps accept s =
    if (lo <=? n + span k s)%nat then Some ((pos + span k s)%nat, caps) else None.
Proof.
  induction s as [|c s IH]; intros n pos caps; rewrite rep_unfold; cbv zeta.
  - simpl span. rewrite !Nat.add_0_r. unfold accept.
    destruct (lo <=? n)%nat; reflexivity.
  - cbn [span below]. rewrite andb_true_r.
    destruct (cls_match k c).
    + rewrite IH. rewrite <- !Nat.add_succ_comm.
      destruct (lo <=? S n + span k s)%nat eqn:Hlo; [reflexivity|].
      apply Nat.leb_gt in Hlo.
      destruct (lo <=? n)%nat eqn:Hn; [apply Nat.leb_le in Hn; lia | reflexivity].
    + rewrite !Nat.add_0_r. unfold accept. destruct (lo <=? n)%nat; reflexivity.
Qed.

Lemma whitespace_run_at (pos : nat) (s : str) :
  at_pos WHITESPACE_RUN pos s =
  if (1 <=? span Space s)%nat
  then Some {| group0 := take (span Space s) s; groups := [] |}
  else None.
Proof.
  unfold at_pos, WHITESPACE_RUN, plus. cbn [run]. rewrite rep_greedy_accept.
  cbn [Nat.add]. destruct (1 <=? span Space s)%nat; [|reflexivity].
  replace (pos + span Space s - pos)%nat with (span Space s) by lia. reflexivity.
Qed.

Lemma sub_whitespace_go (s : str) :
  forall skip pos,
    (skip <= span Space s)%nat ->
    sub_go WHITESPACE_RUN skip pos s = List.filter not_space s.
Proof.
  induction s as [|c s IH]; intros skip pos Hskip; [reflexivity|].
  cbn [sub_go List.filter]. unfold not_space at 1.
  cbn [span cls_match] in Hskip.
  destruct skip as [|k].
  - rewrite whitespace_run_at. cbn [span cls_match].
    destruct (Ustr.is_space c); cbn [negb].
    + cbn [Nat.leb group0]. rewrite length_take.
      pose proof (span_le Space s).
      replace (S (span Space s) `min` length (c :: s))%nat
        with (S (span Space s)) by (simpl; lia).
      apply IH. lia.
    + cbn [Nat.leb]. f_equal. apply IH. lia.
  - destruct (Ustr.is_space c); cbn [negb]; [apply IH; lia | lia].
Qed.

Lemma join_char_split_filter_aux (text : str) :
  join_char_split text = List.filter not_space text.
Proof. apply sub_whitespace_go. lia. Qed.

(** X1.  [join_char_split] deletes the whitespace characters and nothing
    else: what is left is the text without them, in order. *)
Theorem join_char_split_filter (text : str) :
  join_char_split text = List.filter not_space text
  /\ Forall (fun c => Ustr.is_space c = false) (join_char_split text).
Proof.
  rewrite join_char_split_filter_aux. split; [reflexivity|].
  apply Forall_forall. intros c Hc.
  apply list_elem_of_In, List.filter_In in Hc as [_ Hc].
  unfold not_space in Hc. now apply negb_true_iff.
Qed.

(** ** Normalisation only deletes *)

Lemma forall_sublist {A} (P : A -> Prop) (l1 l2 : list A) :
  sublist l1 l2 -> Forall P l2 -> Forall P l1.
Proof.
  induction 1 as [|x l1 l2 _ IH|x l1 l2 _ IH]; intros H; [constructor|..];
    inversion H; subst; [constructor; auto | auto].
Qed.

Lemma sub_go_sublist (r : re) (s : str) :
  forall skip pos, sublist (sub_go r skip pos s) s.
Proof.
  induction s as [|c s IH]; intros skip pos; cbn [sub_go]; [constructor|].
  destruct skip; [|apply sublist_cons, IH].
  destruct (at_pos r pos (c :: s)) as [m|]; [|apply sublist_skip, IH].
  destruct (length (group0 m)); [apply sublist_skip | apply sublist_cons]; apply IH.
Qed.

Lemma lstrip_sublist (s : str) : sublist (Ustr.lstrip s) s.
Proof.
  induction s as [|c s IH]; simpl; [constructor|].
  destruct (Ustr.is_space c); [now apply sublist_cons | reflexivity].
Qed.

Lemma rev_sublist {A} (l1 l2 : list A) :
  sublist l1 l2 -> sublist (rev l1) (rev l2).
Proof.
  induction 1 as [|x l1 l2 _ IH|x l1 l2 _ IH]; simpl.
  - constructor.
  - apply sublist_app; [exact IH | reflexivity].
  - apply sublist_inserts_r, IH.
Qed.

Lemma strip_sublist (s : str) : sublist (Ustr.strip s) s.
Proof.
  unfold Ustr.strip, Ustr.rstrip. etransitivity; [|apply lstrip_sublist].
  rewrite <- (rev_involutive (Ustr.lstrip s)) at 2.
  apply rev_sublist, lstrip_sublist.
Qed.

Lemma filter_not_space (s : str) :
  Forall (fun c => Ustr.is_space c = false) (List.filter not_space s).
Proof.
  apply Forall_forall. intros c Hc.
  apply list_elem_of_In, List.filter_In in Hc as [_ Hc].
  unfold not_space in Hc. now apply negb_true_iff.
Qed.

Lemma filter_sublist (f : N -> bool) (s : str) : sublist (List.filter f s) s.
Proof.
  induction s as [|c s IH]; simpl; [constructor|].
  destruct (f c); [apply sublist_skip | apply sublist_cons]; exact IH.
Qed.

Lemma normalize_line_sublist_filter (line : str) :
  sublist (normalize_line line) (List.filter not_space line).
Proof.
  unfold normalize_line. fold (join_char_split line).
  rewrite join_char_split_filter_aux.
  etransitivity; [apply strip_sublist|].
  etransitivity; apply sub_go_sublist.
Qed.

(** X2.  Normalisation only deletes characters, in place, and leaves no
    whitespace character behind. *)
Theorem normalize_line_deletes (line : str) :
  sublist (normalize_line line) line
  /\ Forall (fun c => Ustr.is_space c = false) (normalize_line line).
Proof.
  split.
  - etransitivity; [apply normalize_line_sublist_filter | apply filter_sublist].
  - eapply forall_sublist; [apply normalize_line_sublist_filter|].
    apply filter_not_space.
Qed.

(** ** Annotations *)

Lemma lstrip_id (s : str) :
  Forall (fun c => Ustr.is_space c = false) s -> Ustr.lstrip s = s.
Proof. destruct 1 as [|c s Hc _]; simpl; [reflexivity | now rewrite Hc]. Qed.

Lemma strip_id (s : str) :
  Forall (fun c => Ustr.is_space c = false) s -> Ustr.strip s = s.
Proof.
  intros H. unfold Ustr.strip, Ustr.rstrip. rewrite (lstrip_id s H).
  rewrite lstrip_id; [apply rev_involutive|].
  apply Forall_forall. intros c Hc. rewrite Forall_forall in H. apply H.
  now apply list_elem_of_In, in_rev, list_elem_of_In in Hc.
Qed.

Lemma filter_id (s : str) :
  Forall (fun c => Ustr.is_space c = false) s -> List.filter not_space s = s.
Proof.
  induction 1 as [|c s Hc _ IH]; simpl; [reflexivity|].
  unfold not_space at 1. now rewrite Hc, IH.
Qed.

Lemma opening_missed (opening : N) (x : re) (pos : nat) (c : N) (t : str) :
  c <> opening -> at_pos (One (Lit opening) ⋅ x) pos (c :: t) = None.
Proof.
  intros Hc. unfold at_pos. cbn [run cls_match].
  apply N.eqb_neq in Hc. now rewrite Hc.
Qed.

(** Text without the opening character goes through a substitution that
    starts with it. *)
Lemma sub_go_through (opening : N) (x : re) (a t : str) :
  forall pos,
    Forall (fun c => c <> opening) a ->
    sub_go (One (Lit opening) ⋅ x) 0 pos (a ++ t) =
    a ++ sub_go (One (Lit opening) ⋅ x) 0 (pos + length a) t.
Proof.
  induction a as [|c a IH]; intros pos Ha.
  - simpl. now rewrite Nat.add_0_r.
  - inversion Ha as [|? ? Hc Ha']; subst.
    rewrite <- app_comm_cons. cbn [sub_go].
    rewrite (opening_missed _ _ _ _ _ Hc), IH by assumption.
    simpl length. now rewrite Nat.add_succ_comm.
Qed.

Lemma sub_without_opening (opening : N) (x : re) (s : str) :
  Forall (fun c => c <> opening) s -> sub (One (Lit opening) ⋅ x) s = s.
Proof.
  intros H. unfold sub. rewrite <- (app_nil_r s) at 1.
  rewrite sub_go_through by assumption. simpl. apply app_nil_r.
Qed.

Lemma sub_go_skip (r : re) (x t : str) :
  forall pos, sub_go r (length x) pos (x ++ t) = sub_go r 0 (pos + length x) t.
Proof.
  induction x as [|c x IH]; intros pos; simpl.
  - now rewrite Nat.add_0_r.
  - rewrite IH. now rewrite Nat.add_succ_comm.
Qed.

Lemma none_of_one (closing c : N) :
  cls_match (NoneOf [closing]) c = negb (c =? closing).
Proof. cbn. now rewrite orb_false_r. Qed.

Lemma annotation_body_hit (closing : N) (rest : str) (caps : list str) (note : str) :
  forall n pos,
    Forall (fun c => c <> closing) note ->
    (n + length note <= 30)%nat -> (1 <= n + length note)%nat ->
    rep (NoneOf [closing]) 1%nat (Some 30%nat) true n pos caps
        (fun p c t => run (One (Lit closing)) p c accept t)
        (note ++ closing :: rest)
    = Some (S (pos + length note), caps).
Proof.
  induction note as [|x note IH]; intros n pos Hnote Hhi Hlo;
    rewrite rep_unfold; cbv zeta.
  - rewrite app_nil_l. simpl length in *. rewrite none_of_one, N.eqb_refl.
    cbn [negb andb].
    rewrite Nat.add_0_r in *. apply Nat.leb_le in Hlo. rewrite Hlo.
    cbn [run cls_match]. now rewrite N.eqb_refl.
  - inversion Hnote as [|? ? Hx Hnote']; subst. simpl length in *.
    rewrite <- app_comm_cons, none_of_one.
    apply N.eqb_neq in Hx. rewrite Hx. cbn [negb andb below].
    assert ((n <? 30)%nat = true) as -> by (apply Nat.ltb_lt; lia).
    rewrite IH by (assumption || lia). f_equal. f_equal. lia.
Qed.

Lemma annotation_body_miss (closing : N) (rest : str) (caps : list str) (w : str) :
  forall n pos,
    Forall (fun c => c <> closing) w ->
    (n <= 30)%nat -> (31 <= n + length w)%nat ->
    rep (NoneOf [closing]) 1%nat (Some 30%nat) true n pos caps
        (fun p c t => run (One (Lit closing)) p c accept t)
        (w ++ rest)
    = None.
Proof.
  induction w as [|x w IH]; intros n pos Hw Hn Hlen; [simpl in Hlen; lia|].
  inversion Hw as [|? ? Hx Hw']; subst. simpl length in *.
  rewrite rep_unfold; cbv zeta. rewrite <- app_comm_cons.
  assert (Hstop : (if (1 <=? n)%nat
                   then run (One (Lit closing)) pos caps accept (x :: w ++ rest)
                   else None) = None).
  { destruct (1 <=? n)%nat; [|reflexivity]. cbn [run cls_match].
    apply N.eqb_neq in Hx. now rewrite Hx. }
  rewrite Hstop. destruct (cls_match _ x && below (Some 30%nat) n) eqn:Hmore;
    [|reflexivity].
  apply andb_true_iff in Hmore as [_ Hb]. cbn [below] in Hb.
  apply Nat.ltb_lt in Hb. rewrite IH by (assumption || lia). reflexivity.
Qed.

Lemma annotation_hit (opening closing : N) (pos : nat) (note rest : str) :
  Forall (fun c => c <> closing) note ->
  (1 <= length note <= 30)%nat ->
  exists m, at_pos (annotation opening closing) pos
                   (opening :: note ++ closing :: rest) = Some m
            /\ length (group0 m) = S (S (length note)).
Proof.
  intros Hnote [Hlo Hhi]. unfold at_pos, annotation, between.
  cbn [run cls_match]. rewrite N.eqb_refl.
  rewrite annotation_body_hit by (assumption || lia).
  eexists. split; [reflexivity|]. cbn [group0].
  rewrite length_take. simpl length. rewrite length_app. simpl. lia.
Qed.

Lemma annotation_miss (opening closing : N) (pos : nat) (w rest : str) :
  Forall (fun c => c <> closing) w ->
  (31 <= length w)%nat ->
  at_pos (annotation opening closing) pos (opening :: w ++ rest) = None.
Proof.
  intros Hw Hlen. unfold at_pos, annotation, between.
  cbn [run cls_match]. rewrite N.eqb_refl.
  rewrite annotation_body_miss by (assumption || lia). reflexivity.
Qed.

Lemma annotation_empty (opening closing : N) (pos : nat) (rest : str) :
  at_pos (annotation opening closing) pos (opening :: closing :: rest) = None.
Proof.
  unfold at_pos, annotation, between. cbn [run cls_match]. rewrite N.eqb_refl.
  rewrite rep_unfold. cbv zeta. rewrite none_of_one, N.eqb_refl. reflexivity.
Qed.

Lemma sub_annotation_removed (opening closing : N) (a note b : str) :
  Forall (fun c => c <> opening) a ->
  Forall (fun c => c <> opening) b ->
  Forall (fun c => c <> closing) note ->
  (1 <= length note <= 30)%nat ->
  sub (annotation opening closing) (a ++ opening :: note ++ closing :: b) = a ++ b.
Proof.
  intros Ha Hb Hnote Hlen. unfold sub, annotation at 1.
  rewrite sub_go_through by assumption. f_equal. cbn [sub_go].
  fold (annotation opening closing).
  destruct (annotation_hit opening closing (0 + length a) note b Hnote Hlen)
    as (m & -> & ->).
  change (note ++ closing :: b) with (note ++ [closing] ++ b).
  rewrite app_assoc.
  replace (S (length note)) with (length (note ++ [closing]))
    by (rewrite length_app; simpl; lia).
  rewrite sub_go_skip.
  rewrite <- (app_nil_r b) at 1. unfold annotation.
  rewrite sub_go_through by assumption. simpl. apply app_nil_r.
Qed.

Lemma sub_annotation_kept (opening closing : N) (a note b : str) :
  opening <> closing ->
  Forall (fun c => c <> opening) a ->
  Forall (fun c => c <> opening) b ->
  Forall (fun c => c <> closing /\ c <> opening) note ->
  note = [] \/ (31 <= length note)%nat ->
  sub (annotation opening closing) (a ++ opening :: note ++ closing :: b)
  = a ++ opening :: note ++ closing :: b.
Proof.
  intros Hoc Ha Hb Hnote Hlen. unfold sub, annotation at 1.
  rewrite sub_go_through by assumption. f_equal. cbn [sub_go].
  fold (annotation opening closing).
  assert (at_pos (annotation opening closing) (0 + length a)
                 (opening :: note ++ closing :: b) = None) as ->.
  { destruct Hlen as [-> | Hlen]; [apply annotation_empty|].
    apply annotation_miss; [|assumption].
    eapply Forall_impl; [exact Hnote|]. now intros c [H _]. }
  f_equal. unfold annotation.
  rewrite <- (app_nil_r (note ++ closing :: b)) at 1.
  rewrite sub_go_through; [simpl; apply app_nil_r|].
  apply Forall_app. split.
  - eapply Forall_impl; [exact Hnote|]. now intros c [_ H].
  - constructor; [congruence | assumption].
Qed.

Lemma plain_parts (s : str) :
  Forall plain s ->
  Forall (fun c => Ustr.is_space c = false) s
  /\ Forall (fun c => c <> ch "（") s /\ Forall (fun c => c <> ch "(") s.
Proof.
  intros H. repeat split; (eapply Forall_impl; [exact H|]); intros c (? & ? & ?);
    assumption.
Qed.

Lemma note_parts (s : str) :
  Forall note_char s ->
  Forall (fun c => Ustr.is_space c = false) s
  /\ Forall (fun c => c <> ch "（") s /\ Forall (fun c => c <> ch "）") s
  /\ Forall (fun c => c <> ch "(") s /\ Forall (fun c => c <> ch ")") s.
Proof.
  intros H. repeat split; (eapply Forall_impl; [exact H|]);
    intros c (? & ? & ? & ? & ?); assumption.
Qed.

Lemma normalize_line_passes (line : str) :
  normalize_line line =
  Ustr.strip (sub (annotation (ch "(") (ch ")"))
                  (sub (annotation (ch "（") (ch "）"))
                       (List.filter not_space line))).
Proof.
  unfold normalize_line. fold (join_char_split line).
  now rewrite join_char_split_filter_aux.
Qed.

(** X3.  A line without an opening parenthesis is normalised by deleting
    its whitespace, nothing more: brackets, angle brackets and their
    content are kept as they are. *)
Theorem normalize_line_without_parentheses (line : str) :
  Forall (fun c => c <> ch "（" /\ c <> ch "(") line ->
  normalize_line line = List.filter not_space line.
Proof.
  intros H. rewrite normalize_line_passes.
  assert (Hf : Forall (fun c => c <> ch "（" /\ c <> ch "(")
                      (List.filter not_space line))
    by (eapply forall_sublist; [apply filter_sublist | exact H]).
  unfold annotation.
  rewrite (sub_without_opening (ch "（"))
    by (eapply Forall_impl; [exact Hf|]; now intros c [? _]).
  rewrite (sub_without_opening (ch "("))
    by (eapply Forall_impl; [exact Hf|]; now intros c [_ ?]).
  apply strip_id, filter_not_space.
Qed.

Lemma normalize_line_without_parentheses_witness :
  normalize_line (u " 総 務 局 ［総務課、 人事課］ ＜東北＞ ") = u "総務局［総務課、人事課］＜東北＞".
Proof.
  rewrite normalize_line_without_parentheses; [reflexivity|].
  vm_compute; repeat constructor; discriminate.
Defined.

(** X4.  An annotation of 1 to 30 characters between parentheses, of
    either width, is deleted with its parentheses; the text around it is
    kept. *)
Theorem annotation_removed (a note b : str) :
  Forall plain a -> Forall plain b -> Forall note_char note ->
  (1 <= length note <= 30)%nat ->
  normalize_line (a ++ ch "（" :: note ++ ch "）" :: b) = a ++ b
  /\ normalize_line (a ++ ch "(" :: note ++ ch ")" :: b) = a ++ b.
Proof.
  intros Ha Hb Hnote Hlen.
  destruct (plain_parts a Ha) as (Has & Haf & Hah).
  destruct (plain_parts b Hb) as (Hbs & Hbf & Hbh).
  destruct (note_parts note Hnote) as (Hns & Hnf & Hnfc & Hnh & Hnhc).
  assert (Hab : Forall (fun c => Ustr.is_space c = false) (a ++ b))
    by (apply Forall_app; split; assumption).
  split; rewrite normalize_line_passes.
  - rewrite filter_id
      by (apply Forall_app; split; [assumption|]; constructor; [reflexivity|];
          apply Forall_app; split; [assumption|]; constructor; [reflexivity | assumption]).
    rewrite sub_annotation_removed by assumption.
    unfold annotation. rewrite sub_without_opening
      by (apply Forall_app; split; assumption).
    now apply strip_id.
  - rewrite filter_id
      by (apply Forall_app; split; [assumption|]; constructor; [reflexivity|];
          apply Forall_app; split; [assumption|]; constructor; [reflexivity | assumption]).
    unfold annotation at 2. rewrite sub_without_opening.
    + rewrite sub_annotation_removed by assumption. now apply strip_id.
    + apply Forall_app; split; [assumption|]. constructor; [discriminate|].
      apply Forall_app; split; [assumption|]. constructor; [discriminate | assumption].
Qed.

Lemma annotation_removed_witness :
  normalize_line (u "総務課（2人）、人事課") = u "総務課、人事課"
  /\ normalize_line (u "総務課(各2人)、人事課") = u "総務課、人事課".
Proof.
  split.
  - refine (proj1 (annotation_removed (u "総務課") (u "2人") (u "、人事課") _ _ _ _));
      [vm_compute; repeat constructor; discriminate .. | vm_compute; lia].
  - refine (proj2 (annotation_removed (u "総務課") (u "各2人") (u "、人事課") _ _ _ _));
      [vm_compute; repeat constructor; discriminate .. | vm_compute; lia].
Defined.

(** X5.  Empty parentheses, and parentheses around more than 30
    characters, are not annotations: the text is kept whole. *)
Theorem annotation_kept (a note b : str) :
  Forall plain a -> Forall plain b -> Forall note_char note ->
  note = [] \/ (31 <= length note)%nat ->
  normalize_line (a ++ ch "（" :: note ++ ch "）" :: b)
  = a ++ ch "（" :: note ++ ch "）" :: b
  /\ normalize_line (a ++ ch "(" :: note ++ ch ")" :: b)
     = a ++ ch "(" :: note ++ ch ")" :: b.
Proof.
  intros Ha Hb Hnote Hlen.
  destruct (plain_parts a Ha) as (Has & Haf & Hah).
  destruct (plain_parts b Hb) as (Hbs & Hbf & Hbh).
  destruct (note_parts note Hnote) as (Hns & Hnf & Hnfc & Hnh & Hnhc).
  assert (Hall : forall o c, Ustr.is_space o = false -> Ustr.is_space c = false ->
            Forall (fun x => Ustr.is_space x = false) (a ++ o :: note ++ c :: b)).
  { intros o c Ho Hc. apply Forall_app; split; [assumption|].
    constructor; [assumption|]. apply Forall_app; split; [assumption|].
    now constructor. }
  assert (Hpair : forall (p : N -> Prop) (l1 l2 : str),
            Forall p l1 -> Forall p l2 -> Forall (fun c => p c) l1 /\ True)
    by (intros; split; [assumption | exact I]).
  split; rewrite normalize_line_passes, filter_id by (apply Hall; reflexivity).
  - rewrite sub_annotation_kept; [| discriminate | assumption | assumption | | assumption].
    + unfold annotation. rewrite sub_without_opening; [apply strip_id, Hall; reflexivity|].
      apply Forall_app; split; [assumption|]. constructor; [discriminate|].
      apply Forall_app; split; [assumption|]. constructor; [discriminate | assumption].
    + eapply Forall_impl; [exact Hnote|]. intros c (? & ? & ? & ? & ?). now split.
  - unfold annotation at 2. rewrite sub_without_opening.
    + rewrite sub_annotation_kept; [apply strip_id, Hall; reflexivity | discriminate
                                   | assumption | assumption | | assumption].
      eapply Forall_impl; [exact Hnote|]. intros c (? & ? & ? & ? & ?). now split.
    + apply Forall_app; split; [assumption|]. constructor; [discriminate|].
      apply Forall_app; split; [assumption|]. constructor; [discriminate | assumption].
Qed.

Lemma annotation_kept_witness :
  normalize_line (u "総務課（）、人事課") = u "総務課（）、人事課"
  /\ normalize_line
       (u "総務課(一二三四五六七八九十一二三四五六七八九十一二三四五六七八九十一)")
     = u "総務課(一二三四五六七八九十一二三四五六七八九十一二三四五六七八九十一)".
Proof.
  split.
  - refine (proj1 (annotation_kept (u "総務課") [] (u "、人事課") _ _ _ _));
      [vm_compute; repeat constructor; discriminate .. | left; reflexivity].
  - refine (proj2 (annotation_kept (u "総務課")
                     (u "一二三四五六七八九十一二三四五六七八九十一二三四五六七八九十一")
                     [] _ _ _ _));
      [vm_compute; repeat constructor; discriminate .. | right; vm_compute; lia].
Defined.

(** ** The count suffix *)

Lemma eol_refused (pos : nat) (caps : list str) (x : N) (t : str) :
  Ustr.is_space x = false -> run Eol pos caps accept (x :: t) = None.
Proof.
  intros Hx. cbn [run]. destruct t; [|reflexivity].
  destruct (x =? NL) eqn:Hnl; [|reflexivity].
  apply N.eqb_eq in Hnl. subst. discriminate Hx.
Qed.

Lemma count_run_all (caps : list str) (digits : str) :
  forall n pos,
    Forall (fun c => count_digit c = true) digits ->
    (1 <= n + length digits)%nat ->
    rep COUNT_DIGIT 1 None true n pos caps
        (fun p c t => run Eol p c accept t) digits
    = Some ((pos + length digits)%nat, caps).
Proof.
  induction digits as [|x digits IH]; intros n pos Hd Hn;
    rewrite rep_unfold; cbv zeta.
  - simpl length in *. rewrite Nat.add_0_r in *.
    apply Nat.leb_le in Hn. now rewrite Hn.
  - inversion Hd as [|? ? Hx Hd']; subst. unfold count_digit in Hx.
    rewrite Hx. cbn [andb below]. simpl length in *.
    rewrite IH by (assumption || lia). f_equal. f_equal. lia.
Qed.

Lemma count_run_none (caps : list str) (x : N) (t : str) (digits : str) :
  forall n pos,
    Forall (fun c => count_digit c = true /\ Ustr.is_space c = false) digits ->
    count_digit x = false -> Ustr.is_space x = false ->
    rep COUNT_DIGIT 1 None true n pos caps
        (fun p c t => run Eol p c accept t) (digits ++ x :: t)
    = None.
Proof.
  induction digits as [|y digits IH]; intros n pos Hd Hx Hsp;
    rewrite rep_unfold; cbv zeta.
  - rewrite app_nil_l. unfold count_digit in Hx. rewrite Hx. cbn [andb].
    rewrite eol_refused by assumption. now destruct (1 <=? n)%nat.
  - inversion Hd as [|? ? [Hy Hys] Hd']; subst. rewrite <- app_comm_cons.
    rewrite eol_refused by assumption.
    unfold count_digit in Hy. rewrite Hy. cbn [andb below].
    rewrite IH by assumption. now destruct (1 <=? n)%nat.
Qed.

Lemma digit_prefix (t : str) :
  Exists (fun c => count_digit c = false) t ->
  exists d x t', t = d ++ x :: t'
                 /\ Forall (fun c => count_digit c = true) d
                 /\ count_digit x = false.
Proof.
  induction t as [|c t IH]; intros H; [inversion H|].
  destruct (count_digit c) eqn:Hc.
  - inversion H as [? ? Hc'|? ? Ht]; subst; [congruence|].
    destruct (IH Ht) as (d & x & t' & -> & Hd & Hx).
    exists (c :: d), x, t'. repeat split; [now constructor | assumption].
  - exists [], c, t. repeat split; [constructor | assumption].
Qed.

Lemma count_suffix_missed (pos : nat) (t : str) :
  Forall (fun c => Ustr.is_space c = false) t ->
  Exists (fun c => count_digit c = false) t ->
  at_pos COUNT_SUFFIX pos t = None.
Proof.
  intros Hsp Hex. destruct (digit_prefix t Hex) as (d & x & t' & -> & Hd & Hx).
  unfold at_pos, COUNT_SUFFIX, plus. cbn [run].
  apply Forall_app in Hsp as [Hds Hxs]. inversion Hxs; subst.
  rewrite count_run_none; [reflexivity | | assumption | assumption].
  apply Forall_forall. rewrite !Forall_forall in *. auto.
Qed.

Lemma count_suffix_hit (pos : nat) (digits : str) :
  Forall (fun c => count_digit c = true) digits -> digits <> [] ->
  at_pos COUNT_SUFFIX pos digits = Some {| group0 := digits; groups := [] |}.
Proof.
  intros Hd Hne. unfold at_pos, COUNT_SUFFIX, plus. cbn [run].
  rewrite count_run_all; [|assumption|destruct digits; [congruence | simpl; lia]].
  replace (pos + length digits - pos)%nat with (length digits) by lia.
  now rewrite firstn_all.
Qed.

Lemma ends_without_digit_tail (c : N) (s : str) :
  s <> [] -> ends_without_digit (c :: s) -> ends_without_digit s.
Proof. destruct s; [congruence | intros _ H; exact H]. Qed.

Lemma ends_without_digit_exists (s : str) :
  s <> [] -> ends_without_digit s -> Exists (fun c => count_digit c = false) s.
Proof.
  induction s as [|c s IH]; intros Hne H; [congruence|].
  destruct s as [|c' s]; [left; exact H|].
  right. apply IH; [discriminate | exact H].
Qed.

Lemma sub_count_suffix (digits : str) (body : str) :
  forall pos,
    Forall (fun c => Ustr.is_space c = false) (body ++ digits) ->
    Forall (fun c => count_digit c = true) digits ->
    ends_without_digit body ->
    sub_go COUNT_SUFFIX 0 pos (body ++ digits) = body.
Proof.
  induction body as [|c body IH]; intros pos Hsp Hd Hend.
  - rewrite app_nil_l. destruct digits as [|x digits]; [reflexivity|].
    cbn [sub_go]. rewrite count_suffix_hit by (assumption || discriminate).
    cbn [group0 length].
    rewrite <- (app_nil_r digits) at 2. now rewrite sub_go_skip.
  - rewrite <- app_comm_cons. cbn [sub_go].
    rewrite count_suffix_missed.
    + f_equal. inversion Hsp; subst. destruct body as [|c' body].
      * apply (IH _); [assumption | assumption | exact I].
      * apply IH; [assumption | assumption | exact Hend].
    + exact Hsp.
    + rewrite app_comm_cons. apply Exists_app. left.
      apply ends_without_digit_exists; [discriminate | exact Hend].
Qed.

Lemma search_from_unfold (r : re) (pos : nat) (s : str) :
  search_from r pos s =
  match at_pos r pos s with
  | Some m => Some m
  | None => match s with
            | [] => None
            | _ :: s' => search_from r (S pos) s'
            end
  end.
Proof. destruct s; reflexivity. Qed.

Lemma search_count_suffix (digits : str) (body : str) :
  forall pos,
    Forall (fun c => Ustr.is_space c = false) (body ++ digits) ->
    Forall (fun c => count_digit c = true) digits ->
    ends_without_digit body ->
    search_from COUNT_SUFFIX pos (body ++ digits) =
    match digits with
    | [] => None
    | _ => Some {| group0 := digits; groups := [] |}
    end.
Proof.
  induction body as [|c body IH]; intros pos Hsp Hd Hend.
  - rewrite app_nil_l. destruct digits as [|x digits]; [reflexivity|].
    rewrite search_from_unfold.
    now rewrite count_suffix_hit by (assumption || discriminate).
  - rewrite <- app_comm_cons. cbn [search_from].
    rewrite count_suffix_missed.
    + inversion Hsp; subst. destruct body as [|c' body].
      * apply (IH _); [assumption | assumption | exact I].
      * apply IH; [assumption | assumption | exact Hend].
    + exact Hsp.
    + rewrite app_comm_cons. apply Exists_app. left.
      apply ends_without_digit_exists; [discriminate | exact Hend].
Qed.

Lemma digit_split (s : str) :
  exists body digits,
    s = body ++ digits
    /\ Forall (fun c => count_digit c = true) digits
    /\ ends_without_digit body.
Proof.
  induction s as [|x s IH] using rev_ind.
  - exists [], []. repeat split; constructor.
  - destruct (count_digit x) eqn:Hx.
    + destruct IH as (body & digits & -> & Hd & Hend).
      exists body, (digits ++ [x]). rewrite app_assoc. repeat split; [|assumption].
      apply Forall_app. split; [assumption | now constructor].
    + exists (s ++ [x]), []. rewrite app_nil_r. repeat split; [constructor|].
      unfold ends_without_digit. now rewrite last_snoc.
Qed.

Lemma count_suffix_parts (body digits : str) :
  Forall (fun c => Ustr.is_space c = false) (body ++ digits) ->
  Forall (fun c => count_digit c = true) digits ->
  ends_without_digit body ->
  strip_count (body ++ digits) = body /\ count_suffix (body ++ digits) = digits.
Proof.
  intros Hsp Hd Hend. split.
  - unfold strip_count, sub. rewrite sub_count_suffix by assumption.
    apply strip_id. now apply Forall_app in Hsp as [? _].
  - unfold count_suffix, search. rewrite search_count_suffix by assumption.
    now destruct digits.
Qed.

(** X6.  A name without whitespace splits into what [strip_count] keeps
    and the digit suffix the sibling check compares: the suffix is the
    whole trailing run of ASCII and full-width digits, the rest does not
    end in such a digit, and the name changes exactly when there is a
    suffix. *)
Theorem count_suffix_split (name : str) :
  Forall (fun c => Ustr.is_space c = false) name ->
  strip_count name ++ count_suffix name = name
  /\ Forall (fun c => count_digit c = true) (count_suffix name)
  /\ ends_without_digit (strip_count name)
  /\ (strip_count name <> name <-> count_suffix name <> []).
Proof.
  intros Hsp. destruct (digit_split name) as (body & digits & -> & Hd & Hend).
  destruct (count_suffix_parts body digits Hsp Hd Hend) as [-> ->].
  repeat split; try assumption.
  - intros Hne ->. now rewrite app_nil_r in Hne.
  - intros Hne Heq. apply Hne. apply (f_equal length) in Heq.
    rewrite length_app in Heq. destruct digits; [reflexivity | simpl in Heq; lia].
Qed.

Lemma count_suffix_split_witness :
  strip_count (u "管区警察局６12") ++ count_suffix (u "管区警察局６12")
  = u "管区警察局６12".
Proof.
  apply count_suffix_split. vm_compute. repeat constructor.
Defined.

(** ** Kanji numerals and template lists *)

(** X7.  Every numeral the table [_ARABIC_KANJI] prints is read back by
    [_kanji_to_int] as the number it stands for. *)
Theorem kanji_round_trip (i : Z) (k : str) :
  _ARABIC_KANJI !! i = Some k -> _kanji_to_int k = Ok i.
Proof.
  intros H. apply arabic_kanji_cases in H. cbn [In] in H.
  repeat (destruct H as [H|H]; [injection H as <- <-; vm_compute; reflexivity|]).
  contradiction.
Qed.

Lemma kanji_round_trip_witness : _kanji_to_int (u "十一") = Ok 11%Z.
Proof. apply kanji_round_trip. reflexivity. Defined.

Lemma split_nonempty (sep : N) (s : str) : Ustr.split sep s <> [].
Proof.
  induction s as [|c s IH]; simpl; [discriminate|].
  destruct (c =? sep); [discriminate|].
  destruct (Ustr.split sep s); [congruence | discriminate].
Qed.

Lemma split_without_sep (sep : N) (s : str) :
  Forall (fun c => c <> sep) s -> Ustr.split sep s = [s].
Proof.
  induction 1 as [|c s Hc _ IH]; simpl; [reflexivity|].
  apply N.eqb_neq in Hc. now rewrite Hc, IH.
Qed.

Lemma split_app_sep (sep : N) (a b : str) :
  Ustr.split sep (a ++ sep :: b) = Ustr.split sep a ++ Ustr.split sep b.
Proof.
  induction a as [|c a IH]; simpl.
  - now rewrite N.eqb_refl.
  - destruct (c =? sep); [now rewrite IH|]. rewrite IH.
    pose proof (split_nonempty sep a).
    destruct (Ustr.split sep a); [congruence | reflexivity].
Qed.

Lemma extend_all_acc (items : list str) :
  forall acc,
    extend_all items acc =
    match extend_all items [] with
    | Ok r => Ok (acc ++ r)
    | Raise e => Raise e
    end.
Proof.
  induction items as [|item items IH]; intros acc; cbn [extend_all].
  - now rewrite app_nil_r.
  - destruct (_expand_item item) as [xs|e]; cbn; [|reflexivity].
    rewrite (IH (acc ++ xs)), (IH xs).
    destruct (extend_all items []); [now rewrite app_assoc | reflexivity].
Qed.

Lemma extend_all_app (l1 l2 xs ys : list str) :
  extend_all l1 [] = Ok xs -> extend_all l2 [] = Ok ys ->
  extend_all (l1 ++ l2) [] = Ok (xs ++ ys).
Proof.
  revert xs; induction l1 as [|item l1 IH]; intros xs H1 H2.
  - injection H1 as <-. exact H2.
  - rewrite <- app_comm_cons. cbn [extend_all] in *.
    destruct (_expand_item item) as [zs|e]; cbn in *; [|discriminate].
    rewrite extend_all_acc in H1. rewrite extend_all_acc.
    destruct (extend_all l1 []) as [r|e] eqn:Hr; [|discriminate].
    injection H1 as <-. now rewrite (IH r eq_refl H2), app_assoc.
Qed.

(** X8.  The expansion of a template distributes over its list delimiter:
    the prefixes of [a、b] are those of [a] followed by those of [b]. *)
Theorem expand_angle_content_app (a b : str) (xs ys : list str) :
  expand_angle_content a = Ok xs ->
  expand_angle_content b = Ok ys ->
  expand_angle_content (a ++ ch "、" :: b) = Ok (xs ++ ys).
Proof.
  unfold expand_angle_content. rewrite split_app_sep. apply extend_all_app.
Qed.

Lemma expand_angle_content_app_witness :
  expand_angle_content (u "第一～第三、北海道、東北")
  = Ok [u "第一"; u "第二"; u "第三"; u "北海道"; u "東北"].
Proof.
  apply (expand_angle_content_app (u "第一～第三") (u "北海道、東北")
           [u "第一"; u "第二"; u "第三"] [u "北海道"; u "東北"]);
    vm_compute; reflexivity.
Defined.

Lemma expand_literal (name : str) :
  literal_name name -> _expand_item name = Ok [name].
Proof.
  intros (Hne & Hall & Hhead). unfold _expand_item.
  rewrite strip_id by (eapply Forall_impl; [exact Hall|]; now intros c [? _]).
  destruct name as [|c name]; [congruence|].
  assert (match_ RANGE_ITEM (c :: name) = None) as ->.
  { unfold match_, at_pos, RANGE_ITEM, lit. cbn [run Nat.eqb cls_match].
    destruct (c =? ch "第") eqn:Hc; [|reflexivity].
    apply N.eqb_eq in Hc. subst. now contradiction Hhead. }
  reflexivity.
Qed.

Lemma split_join_names (names : list str) :
  names <> [] ->
  Forall (fun name => Forall (fun c => c <> ch "、") name) names ->
  Ustr.split (ch "、") (join_names (ch "、") names) = names.
Proof.
  induction names as [|name names IH]; intros Hne Hall; [congruence|].
  inversion Hall as [|? ? Hname Hrest]; subst.
  destruct names as [|name' names].
  - now apply split_without_sep.
  - change (join_names (ch "、") (name :: name' :: names))
      with (name ++ ch "、" :: join_names (ch "、") (name' :: names)).
    rewrite split_app_sep, IH by (assumption || discriminate).
    now rewrite split_without_sep.
Qed.

Lemma extend_all_literals (names : list str) :
  Forall literal_name names -> extend_all names [] = Ok names.
Proof.
  induction 1 as [|name names Hname _ IH]; [reflexivity|].
  cbn [extend_all]. rewrite (expand_literal _ Hname). cbn.
  rewrite extend_all_acc, IH. reflexivity.
Qed.

(** X9.  A template that lists literal prefixes gives them back: joining
    the names with the list delimiter and expanding the result returns
    the names, in order. *)
Theorem expand_joined_names (names : list str) :
  Forall literal_name names ->
  expand_angle_content (join_names (ch "、") names) = Ok names.
Proof.
  intros H. unfold expand_angle_content.
  destruct names as [|name names]; [reflexivity|].
  rewrite split_join_names; [now apply extend_all_literals | discriminate |].
  eapply Forall_impl; [exact H|]. intros n (_ & Hn & _).
  eapply Forall_impl; [exact Hn|]. now intros c [_ ?].
Qed.

Lemma expand_joined_names_witness :
  expand_angle_content (u "北海道、東北、関東") = Ok [u "北海道"; u "東北"; u "関東"].
Proof.
  apply (expand_joined_names [u "北海道"; u "東北"; u "関東"]).
  vm_compute. repeat constructor; discriminate.
Defined.

(** ** Block joining keeps the text *)

Lemma join_line_text (j j' : joiner) (raw_line : str) :
  join_line j raw_line = Ok j' ->
  joined_text j' =
  joined_text j ++ (if kept_line raw_line then Ustr.strip raw_line else []).
Proof.
  unfold join_line, kept_line, joined_text.
  destruct (Ustr.truthy (Ustr.strip raw_line)); cbn [negb andb];
    [|intros [= <-]; now rewrite app_nil_r].
  destruct (is_some (match_ PAGE_NUMBER _)); cbn [negb];
    [intros [= <-]; now rewrite app_nil_r|].
  destruct (_ && _).
  - intros [= <-]. cbn [blocks current default].
    destruct (current j) as [c|]; cbn [default].
    + rewrite concat_app. simpl. now rewrite app_nil_r.
    + now rewrite app_nil_r.
  - destruct (current j) as [c|]; [|discriminate].
    intros [= <-]. simpl. now rewrite app_assoc.
Qed.

Lemma join_lines_text (lines : list str) :
  forall j j',
    join_lines j lines = Ok j' ->
    joined_text j' =
    joined_text j ++ concat (List.map Ustr.strip (List.filter kept_line lines)).
Proof.
  induction lines as [|l lines IH]; intros j j'; cbn [join_lines].
  - intros [= <-]. now rewrite app_nil_r.
  - destruct (join_line j l) as [j1|e] eqn:Hl; cbn; [|discriminate].
    intros H. rewrite (IH _ _ H), (join_line_text _ _ _ Hl), <- app_assoc.
    f_equal. destruct (kept_line l); reflexivity.
Qed.

Lemma join_finish_text (j : joiner) : concat (join_finish j) = joined_text j.
Proof.
  unfold join_finish, joined_text.
  destruct (current j) as [[|c s]|]; cbn [Ustr.truthy default];
    rewrite ?concat_app; simpl; now rewrite ?app_nil_r.
Qed.

(** X10.  Block joining loses and moves nothing: the blocks, put end to
    end, are the kept lines of the text (blank lines and page numbers of
    one to three digits dropped), each without its surrounding
    whitespace, in order. *)
Theorem blocks_keep_text (raw_text : str) :
  exists bs,
    join_continuation_lines raw_text = Ok bs
    /\ concat bs =
       concat (List.map Ustr.strip
                        (List.filter kept_line (Ustr.split NL raw_text))).
Proof.
  unfold join_continuation_lines.
  destruct (join_lines_ok (Ustr.split NL raw_text) join_start) as [j Hj].
  rewrite Hj. cbn. eexists. split; [reflexivity|].
  rewrite join_finish_text. apply (join_lines_text _ _ _ Hj).
Qed.

(** ** Blocks are trimmed *)

Lemma lstrip_head (s : str) (c : N) (t : str) :
  Ustr.lstrip s = c :: t -> Ustr.is_space c = false.
Proof.
  induction s as [|x s IH]; simpl; [discriminate|].
  destruct (Ustr.is_space x) eqn:Hx; [exact IH | now intros [= <- <-]].
Qed.

Lemma lstrip_snoc (a : str) (c : N) :
  Ustr.is_space c = false -> exists a', Ustr.lstrip (a ++ [c]) = a' ++ [c].
Proof.
  intros Hc. induction a as [|x a [a' IH]]; simpl.
  - rewrite Hc. now exists [].
  - destruct (Ustr.is_space x); [now exists a' | now exists (x :: a)].
Qed.

Lemma strip_trimmed (s : str) : Ustr.strip s <> [] -> trimmed (Ustr.strip s).
Proof.
  unfold Ustr.strip, Ustr.rstrip. intros Hne.
  destruct (Ustr.lstrip s) as [|c0 l] eqn:Hl; [now contradiction Hne|].
  pose proof (lstrip_head _ _ _ Hl) as Hc0.
  simpl rev in *. destruct (lstrip_snoc (rev l) c0 Hc0) as [a' Ha]. split.
  - rewrite Ha, rev_app_distr. simpl. exists c0. now split.
  - destruct (Ustr.lstrip (rev l ++ [c0])) as [|y t] eqn:Hy;
      [now destruct a'|].
    simpl rev. exists y. split; [apply last_snoc | exact (lstrip_head _ _ _ Hy)].
Qed.

Lemma trimmed_app (a b : str) : trimmed a -> trimmed b -> trimmed (a ++ b).
Proof.
  intros [(x & Hx & Hxs) _] [_ (y & Hy & Hys)]. split.
  - exists x. split; [|assumption]. destruct a; [discriminate | exact Hx].
  - exists y. split; [|assumption].
    destruct b as [|z b] using rev_ind; [discriminate|].
    rewrite last_snoc in Hy. rewrite app_assoc. now rewrite last_snoc.
Qed.

Lemma join_line_trimmed (j j' : joiner) (raw_line : str) :
  join_line j raw_line = Ok j' ->
  Forall trimmed (blocks j) /\ (forall c, current j = Some c -> trimmed c) ->
  Forall trimmed (blocks j') /\ (forall c, current j' = Some c -> trimmed c).
Proof.
  unfold join_line. intros H [Hb Hc].
  destruct (Ustr.truthy (Ustr.strip raw_line)) eqn:Ht; cbn [negb] in H;
    [|injection H as <-; now split].
  apply truthy_true, strip_trimmed in Ht.
  destruct (is_some (match_ PAGE_NUMBER _)); [injection H as <-; now split|].
  destruct (_ && _).
  - injection H as <-. cbn [blocks current]. split.
    + destruct (current j) as [c|]; [|assumption].
      apply Forall_app. split; [assumption | constructor; [now apply Hc | constructor]].
    + now intros c [= <-].
  - destruct (current j) as [c|]; [|discriminate]. injection H as <-.
    cbn [blocks current]. split; [assumption|].
    intros c' [= <-]. apply trimmed_app; [now apply Hc | assumption].
Qed.

Lemma join_lines_trimmed (lines : list str) :
  forall j j',
    join_lines j lines = Ok j' ->
    Forall trimmed (blocks j) /\ (forall c, current j = Some c -> trimmed c) ->
    Forall trimmed (blocks j') /\ (forall c, current j' = Some c -> trimmed c).
Proof.
  induction lines as [|l lines IH]; intros j j'; cbn [join_lines].
  - now intros [= <-].
  - destruct (join_line j l) as [j1|e] eqn:Hl; cbn; [|discriminate].
    intros H Hinv. apply (IH _ _ H). exact (join_line_trimmed _ _ _ Hl Hinv).
Qed.

(** X11.  Every block is made of kept lines: none is empty, and none
    begins or ends with a whitespace character. *)
Theorem blocks_trimmed (raw_text : str) :
  exists bs, join_continuation_lines raw_text = Ok bs /\ Forall trimmed bs.
Proof.
  unfold join_continuation_lines.
  destruct (join_lines_ok (Ustr.split NL raw_text) join_start) as [j Hj].
  rewrite Hj. cbn. eexists. split; [reflexivity|].
  destruct (join_lines_trimmed _ _ _ Hj) as [Hb Hc].
  { split; [constructor | discriminate]. }
  unfold join_finish. destruct (current j) as [c|]; [|assumption].
  destruct (Ustr.truthy c); [|assumption].
  apply Forall_app. split; [assumption | constructor; [now apply Hc | constructor]].
Qed.

(** ** Page merging keeps the text *)

Lemma join_names_cons (sep : N) (name : str) (rest : list str) :
  rest <> [] ->
  join_names sep (name :: rest) = name ++ sep :: join_names sep rest.
Proof. destruct rest; [congruence | reflexivity]. Qed.

Lemma absorb_text (rest : list str) :
  forall page_text n,
    join_names NL (absorb page_text n rest) = join_names NL (page_text :: rest).
Proof.
  induction rest as [|next rest IH]; intros page_text n; [reflexivity|].
  cbn [absorb]. destruct (0 <? n)%Z.
  - rewrite IH. destruct rest as [|p rest].
    + reflexivity.
    + rewrite !join_names_cons by discriminate.
      rewrite <- app_assoc. reflexivity.
  - rewrite join_names_cons by apply absorb_nonempty.
    rewrite IH. now rewrite (join_names_cons _ page_text) by discriminate.
Qed.

(** X12.  Page merging loses and moves nothing: the merged pages joined
    by newlines are the raw pages joined by newlines, and there are never
    more merged pages than raw ones. *)
Theorem merge_pages_keeps_text (raw_pages : list str) :
  join_names NL (merge_pages raw_pages) = join_names NL raw_pages
  /\ (length (merge_pages raw_pages) <= length raw_pages)%nat.
Proof.
  destruct raw_pages as [|first rest]; [split; reflexivity|].
  cbn [merge_pages]. split; [apply absorb_text|].
  generalize (angle_delta first). generalize first.
  induction rest as [|next rest IH]; intros p n; simpl; [lia|].
  destruct (0 <? n)%Z; [specialize (IH (p ++ NL :: next) (n + angle_delta next)%Z)
                       | specialize (IH next (angle_delta next))];
    simpl in *; lia.
Qed.

Lemma absorb_untouched (rest : list str) :
  forall page_text,
    Forall (fun p => (angle_delta p <= 0)%Z) (removelast (page_text :: rest)) ->
    absorb page_text (angle_delta page_text) rest = page_text :: rest.
Proof.
  induction rest as [|next rest IH]; intros page_text H; [reflexivity|].
  rewrite removelast_cons in H by discriminate.
  inversion H as [|? ? Hp Hrest]; subst. cbn [absorb].
  assert ((0 <? angle_delta page_text)%Z = false) as -> by (apply Z.ltb_ge; lia).
  f_equal. now apply IH.
Qed.

(** X13.  Pages are merged only where an angle bracket is left open: if
    no page but the last has more ＜ than ＞, the pages come out as they
    went in. *)
Theorem merge_pages_untouched (raw_pages : list str) :
  Forall (fun p => (Ustr.count (ch "＜") p <= Ustr.count (ch "＞") p)%Z)
         (removelast raw_pages) ->
  merge_pages raw_pages = raw_pages.
Proof.
  destruct raw_pages as [|first rest]; [reflexivity|]. intros H.
  apply absorb_untouched. eapply Forall_impl; [exact H|].
  unfold angle_delta. intros p Hp. simpl in Hp. lia.
Qed.

Lemma merge_pages_untouched_witness :
  merge_pages [u "＜東北、関東＞"; u "総務局"; u "＜九州"]
  = [u "＜東北、関東＞"; u "総務局"; u "＜九州"].
Proof.
  apply merge_pages_untouched. vm_compute. repeat constructor; discriminate.
Defined.

(** ** What a match means *)

Lemma rep_sound (k : cls) (lo : nat) (hi : option nat) (greedy : bool)
      (caps : list str) (kt : kont) (res : found) (s : str) :
  forall n pos,
    rep k lo hi greedy n pos caps kt s = Some res ->
    exists pre t,
      s = pre ++ t
      /\ Forall (fun c => cls_match k c = true) pre
      /\ (lo <= n + length pre)%nat
      /\ match hi with
         | Some h => (n <= h -> n + length pre <= h)%nat
         | None => True
         end
      /\ kt (pos + length pre)%nat caps t = Some res.
Proof.
  induction s as [|c s IH]; intros n pos; rewrite rep_unfold; cbv zeta.
  - assert (Hstop : (if (lo <=? n)%nat then kt pos caps [] else None) = Some res ->
                    exists pre t, [] = pre ++ t
                      /\ Forall (fun c => cls_match k c = true) pre
                      /\ (lo <= n + length pre)%nat
                      /\ match hi with
                         | Some h => (n <= h -> n + length pre <= h)%nat
                         | None => True
                         end
                      /\ kt (pos + length pre)%nat caps t = Some res).
    { destruct (lo <=? n)%nat eqn:Hlo; [|discriminate]. intros H.
      exists [], []. apply Nat.leb_le in Hlo. simpl. rewrite !Nat.add_0_r.
      repeat split; [constructor | assumption | destruct hi; auto | assumption]. }
    destruct greedy; [exact Hstop|].
    destruct (if (lo <=? n)%nat then kt pos caps [] else None) eqn:Hs;
      [intros [= <-]; now apply Hstop | discriminate].
  - assert (Hstop : (if (lo <=? n)%nat then kt pos caps (c :: s) else None) = Some res ->
                    exists pre t, c :: s = pre ++ t
                      /\ Forall (fun c => cls_match k c = true) pre
                      /\ (lo <= n + length pre)%nat
                      /\ match hi with
                         | Some h => (n <= h -> n + length pre <= h)%nat
                         | None => True
                         end
                      /\ kt (pos + length pre)%nat caps t = Some res).
    { destruct (lo <=? n)%nat eqn:Hlo; [|discriminate]. intros H.
      exists [], (c :: s). apply Nat.leb_le in Hlo. simpl. rewrite !Nat.add_0_r.
      repeat split; [constructor | assumption | destruct hi; auto | assumption]. }
    assert (Hmore : (if cls_match k c && below hi n
                     then rep k lo hi greedy (S n) (S pos) caps kt s
                     else None) = Some res ->
                    exists pre t, c :: s = pre ++ t
                      /\ Forall (fun c => cls_match k c = true) pre
                      /\ (lo <= n + length pre)%nat
                      /\ match hi with
                         | Some h => (n <= h -> n + length pre <= h)%nat
                         | None => True
                         end
                      /\ kt (pos + length pre)%nat caps t = Some res).
    { destruct (cls_match k c && below hi n) eqn:Hc; [|discriminate].
      apply andb_true_iff in Hc as [Hc Hb]. intros H.
      destruct (IH _ _ H) as (pre & t & -> & Hpre & Hlo & Hhi & Hk).
      exists (c :: pre), t. simpl length.
      rewrite <- !Nat.add_succ_comm.
      repeat split; [now constructor | assumption | | assumption].
      destruct hi as [h|]; [|exact I]. cbn [below] in Hb.
      apply Nat.ltb_lt in Hb. intros _. apply Hhi. lia. }
    destruct greedy.
    + destruct (if cls_match k c && below hi n
                then rep k lo hi true (S n) (S pos) caps kt s else None) eqn:Hm.
      * intros [= <-]. now apply Hmore.
      * exact Hstop.
    + destruct (if (lo <=? n)%nat then kt pos caps (c :: s) else None) eqn:Hs.
      * intros [= <-]. now apply Hstop.
      * exact Hmore.
Qed.

(** Whatever the matcher finds is a match of the pattern: the subject
    splits into the matched text and the rest, on which the continuation
    succeeded with the groups closed on the way. *)
Lemma run_sound (r : re) :
  forall pos caps kt s res,
    run r pos caps kt s = Some res ->
    exists pre t new,
      s = pre ++ t /\ denote r pos pre t new
      /\ kt (pos + length pre)%nat (caps ++ new) t = Some res.
Proof.
  induction r as [| |k|k lo hi greedy|a IHa b IHb|a IHa b IHb|a IHa];
    intros pos caps kt s res; cbn [run denote].
  - destruct (pos =? 0)%nat eqn:Hp; [|discriminate]. intros H.
    apply Nat.eqb_eq in Hp. exists [], s, []. simpl.
    rewrite Nat.add_0_r, app_nil_r. repeat split; auto.
  - intros H. exists [], s, []. simpl. rewrite Nat.add_0_r, app_nil_r.
    destruct s as [|c [|c' s]]; [repeat split; auto | | discriminate].
    destruct (c =? NL) eqn:Hc; [|discriminate].
    apply N.eqb_eq in Hc. subst. repeat split; auto.
  - destruct s as [|c s]; [discriminate|].
    destruct (cls_match k c) eqn:Hc; [|discriminate]. intros H.
    exists [c], s, []. simpl. rewrite Nat.add_1_r, app_nil_r. eauto 7.
  - intros H. apply rep_sound in H as (pre & t & -> & Hpre & Hlo & Hhi & Hk).
    exists pre, t, []. rewrite app_nil_r.
    repeat split; [assumption | lia | | assumption].
    destruct hi; [apply Hhi; lia | exact I].
  - intros H. apply IHa in H as (p1 & t1 & n1 & -> & Ha & H).
    apply IHb in H as (p2 & t & n2 & -> & Hb & H).
    exists (p1 ++ p2), t, (n1 ++ n2).
    split; [now rewrite <- app_assoc|]. split.
    + exists p1, p2, n1, n2. auto.
    + rewrite length_app, Nat.add_assoc, (app_assoc caps n1 n2). exact H.
  - destruct (run a pos caps kt s) eqn:Ha.
    + intros [= <-]. apply IHa in Ha as (pre & t & new & ? & ? & ?).
      exists pre, t, new. auto.
    + intros Hb. apply IHb in Hb as (pre & t & new & ? & ? & ?).
      exists pre, t, new. auto.
  - intros H. apply IHa in H as (pre & t & n & -> & Ha & H).
    exists pre, t, (n ++ [pre]).
    split; [reflexivity|]. split; [eauto|].
    replace (pos + length pre - pos)%nat with (length pre) in H by lia.
    rewrite take_app_length in H. now rewrite app_assoc.
Qed.

Lemma at_pos_sound (r : re) (pos : nat) (s : str) (m : mobj) :
  at_pos r pos s = Some m ->
  exists t, s = group0 m ++ t /\ denote r pos (group0 m) t (groups m).
Proof.
  unfold at_pos. destruct (run r pos [] accept s) as [[e caps]|] eqn:H;
    [|discriminate].
  intros [= <-]. apply run_sound in H as (pre & t & new & -> & Hd & [= <- <-]).
  cbn [group0 groups]. exists t.
  replace (pos + length pre - pos)%nat with (length pre) by lia.
  rewrite take_app_length. auto.
Qed.

Lemma match_sound (r : re) (s : str) (m : mobj) :
  match_ r s = Some m ->
  exists t, s = group0 m ++ t /\ denote r 0 (group0 m) t (groups m).
Proof. apply at_pos_sound. Qed.

Lemma search_from_sound (r : re) (s : str) (m : mobj) :
  forall pos,
    search_from r pos s = Some m ->
    exists before t,
      s = before ++ group0 m ++ t
      /\ denote r (pos + length before) (group0 m) t (groups m).
Proof.
  induction s as [|c s IH]; intros pos; rewrite search_from_unfold.
  - destruct (at_pos r pos []) eqn:H; [|discriminate]. intros [= ->].
    apply at_pos_sound in H as (t & Ht & Hd).
    exists [], t. simpl. now rewrite Nat.add_0_r.
  - destruct (at_pos r pos (c :: s)) eqn:H.
    + intros [= ->]. apply at_pos_sound in H as (t & Ht & Hd).
      exists [], t. simpl. now rewrite Nat.add_0_r.
    + intros Hs. apply IH in Hs as (before & t & -> & Hd).
      exists (c :: before), t. simpl. now rewrite <- Nat.add_succ_comm.
Qed.

Lemma search_sound (r : re) (s : str) (m : mobj) :
  search r s = Some m ->
  exists before t,
    s = before ++ group0 m ++ t
    /\ denote r (length before) (group0 m) t (groups m).
Proof. intros H. now apply search_from_sound in H. Qed.

(** ** Suffixes *)

Ltac unpack :=
  repeat match goal with
         | H : exists _, _ |- _ => destruct H
         | H : _ /\ _ |- _ => destruct H
         end.

Lemma no_space_last (s : str) (x : N) :
  no_space s -> last s = Some x -> Ustr.is_space x = false.
Proof.
  intros Hs Hl. destruct s as [|c s] using rev_ind; [discriminate|].
  rewrite last_snoc in Hl. injection Hl as ->.
  now apply Forall_app in Hs as [_ Hs]; inversion Hs.
Qed.

(** A match of [[cs]$] on a string that does not end in whitespace means
    that the string ends in one of [cs]. *)
Lemma suffix_found (cs : str) (s : str) :
  (forall x, last s = Some x -> Ustr.is_space x = false) ->
  search (One (OneOf cs) ⋅ Eol) s <> None ->
  ends_in cs s.
Proof.
  intros Hlast Hs. destruct (search _ s) as [m|] eqn:Hm; [|congruence].
  apply search_sound in Hm as (before & t & Heq & Hd). cbn [denote] in Hd.
  destruct Hd as (p1 & p2 & n1 & n2 & Hpre & _ & [(c & -> & Hc) _] & (-> & Ht & _)).
  rewrite Hpre in Heq. cbn [cls_match] in Hc. destruct Ht as [-> | ->].
  - exists before, c. split; [now rewrite !app_nil_r in Heq | assumption].
  - exfalso. specialize (Hlast NL). rewrite Heq in Hlast.
    rewrite !app_assoc, last_snoc in Hlast. now specialize (Hlast eq_refl).
Qed.

(** ** Sections of a bracketed list *)

Lemma sub_whitespace_char_go (s : str) :
  forall pos, sub_go WHITESPACE_CHAR 0 pos s = List.filter not_space s.
Proof.
  induction s as [|c s IH]; intros pos; [reflexivity|].
  cbn [sub_go List.filter]. unfold not_space at 1, at_pos, WHITESPACE_CHAR.
  cbn [run cls_match]. destruct (Ustr.is_space c); cbn [negb].
  - unfold accept. cbn [group0]. replace (S pos - pos)%nat with 1%nat by lia.
    cbn [take length]. apply IH.
  - f_equal. apply IH.
Qed.

Lemma split_pieces (sep : N) (s : str) :
  Forall (fun w => Forall (fun c => c <> sep) w /\ sublist w s) (Ustr.split sep s).
Proof.
  induction s as [|c s IH]; simpl.
  - constructor; [split; constructor | constructor].
  - destruct (c =? sep) eqn:Hc.
    + constructor; [split; [constructor | apply sublist_nil_l]|].
      eapply Forall_impl; [exact IH|]. intros w [? ?]. split; [assumption|].
      now apply sublist_cons.
    + apply N.eqb_neq in Hc. destruct (Ustr.split sep s) as [|w ws].
      * constructor; [|constructor].
        split; [repeat constructor; assumption | apply sublist_skip, sublist_nil_l].
      * inversion IH as [|? ? [Hw Hsub] Hws]; subst. constructor.
        -- split; [now constructor | now apply sublist_skip].
        -- eapply Forall_impl; [exact Hws|]. intros w' [? ?]. split; [assumption|].
           now apply sublist_cons.
Qed.

Lemma sections_fold (P : str -> Prop) (items : list str) :
  (forall item,
      In item items ->
      Ustr.truthy (clean_item item)
      && is_some (search SECTION_ENDINGS (clean_item item))
      && (2 <=? length (clean_item item))%nat = true ->
      P (clean_item item)) ->
  forall acc,
    Forall P acc ->
    Forall P
      (List.fold_left
         (fun sections item =>
            let item_clean := sub WHITESPACE_CHAR item in
            let item_clean := Ustr.strip (sub ANNOTATION_FULL item_clean) in
            if Ustr.truthy item_clean
               && is_some (search SECTION_ENDINGS item_clean)
               && (2 <=? length item_clean)%nat
            then sections ++ [item_clean] else sections)
         items acc).
Proof.
  induction items as [|item items IH]; intros Hstep acc Hacc; [exact Hacc|].
  cbn [List.fold_left]. apply IH.
  - intros i Hi. apply Hstep. now right.
  - cbv zeta. fold (clean_item item).
    destruct (_ && _ && _) eqn:Hc; [|exact Hacc].
    apply Forall_app. split; [exact Hacc|]. constructor; [|constructor].
    apply Hstep; [now left | exact Hc].
Qed.

Lemma sections_checked (bracket_text : str) :
  Forall (fun sec =>
            ends_in SECTION_SUFFIXES sec
            /\ (2 <= length sec)%nat
            /\ no_space sec
            /\ Forall (fun c => c <> ch "、") sec)
         (extract_bureaus_and_sections bracket_text).
Proof.
  unfold extract_bureaus_and_sections. apply sections_fold; [|constructor].
  intros item Hin Hc.
  apply andb_true_iff in Hc as [Hc Hlen]. apply andb_true_iff in Hc as [Hne Hs].
  apply truthy_true in Hne. apply Nat.leb_le in Hlen.
  assert (Hsub : sublist (clean_item item) (List.filter not_space item)).
  { unfold clean_item, sub. rewrite sub_whitespace_char_go.
    etransitivity; [apply strip_sublist | apply sub_go_sublist]. }
  assert (Hns : no_space (clean_item item))
    by (eapply forall_sublist; [exact Hsub | apply filter_not_space]).
  repeat split; [|assumption|assumption|].
  - apply suffix_found; [intros x; now apply no_space_last|].
    unfold SECTION_ENDINGS, set in Hs. now destruct (search _ (clean_item item)).
  - apply in_map_iff in Hin as (w & <- & Hw). apply List.filter_In in Hw as [Hw _].
    pose proof (split_pieces (ch "、") bracket_text) as Hp.
    rewrite Forall_forall in Hp. apply list_elem_of_In, Hp in Hw as [Hw _].
    eapply forall_sublist; [|exact Hw].
    etransitivity; [exact Hsub|].
    etransitivity; [apply filter_sublist | apply strip_sublist].
Qed.

(** X14.  Whatever stands between the brackets, every section returned
    has at least two characters, ends in one of 課室班係官, and holds no
    whitespace and no list delimiter. *)
Theorem sections_well_formed (bracket_text : str) :
  Forall (fun sec =>
            ends_in SECTION_SUFFIXES sec
            /\ (2 <= length sec)%nat
            /\ no_space sec
            /\ Forall (fun c => c <> ch "、") sec)
         (extract_bureaus_and_sections bracket_text).
Proof. apply sections_checked. Qed.

Lemma search_suffix (cs : str) (s : str) :
  no_space s ->
  is_some (search (One (OneOf cs) ⋅ Eol) s) =
  match last s with
  | Some x => Ustr.mem x cs
  | None => false
  end.
Proof.
  unfold search. generalize 0%nat.
  induction s as [|c s IH]; intros pos Hs; [reflexivity|].
  inversion Hs as [|? ? Hc Hs']; subst.
  rewrite search_from_unfold. unfold at_pos at 1. cbn [run cls_match].
  destruct s as [|c' s].
  - cbn [last]. destruct (Ustr.mem c cs); reflexivity.
  - assert ((if Ustr.mem c cs
             then match c' :: s with
                  | [] => accept (S pos) [] (c' :: s)
                  | [c0] => if c0 =? NL then accept (S pos) [] (c' :: s) else None
                  | _ => None
                  end
             else None) = None) as ->.
    { destruct (Ustr.mem c cs); [|reflexivity]. destruct s; [|reflexivity].
      inversion Hs'; subst. destruct (c' =? NL) eqn:Hn; [|reflexivity].
      apply N.eqb_eq in Hn. subst. discriminate. }
    rewrite (IH _ Hs'). reflexivity.
Qed.

Lemma clean_plain_item (item : str) :
  Forall (fun c => Ustr.is_space c = false /\ c <> ch "（" /\ c <> ch "、") item ->
  clean_item item = item.
Proof.
  intros H.
  assert (Hs : no_space item) by (eapply Forall_impl; [exact H|]; now intros c [? _]).
  unfold clean_item, sub at 2. rewrite sub_whitespace_char_go, (filter_id _ Hs).
  change ANNOTATION_FULL with (annotation (ch "（") (ch "）")). unfold annotation.
  rewrite sub_without_opening
    by (eapply Forall_impl; [exact H|]; now intros c (_ & ? & _)).
  now apply strip_id.
Qed.

Lemma sections_of_plain_items (items : list str) :
  Forall plain_item items ->
  forall acc,
    List.fold_left
      (fun sections item =>
         let item_clean := sub WHITESPACE_CHAR item in
         let item_clean := Ustr.strip (sub ANNOTATION_FULL item_clean) in
         if Ustr.truthy item_clean
            && is_some (search SECTION_ENDINGS item_clean)
            && (2 <=? length item_clean)%nat
         then sections ++ [item_clean] else sections)
      items acc
    = acc ++ List.filter section_like items.
Proof.
  induction 1 as [|item items [Hne Hitem] _ IH]; intros acc; cbn [List.fold_left List.filter].
  - now rewrite app_nil_r.
  - cbv zeta. fold (clean_item item). rewrite (clean_plain_item _ Hitem), IH.
    apply truthy_true in Hne. rewrite Hne. cbn [andb].
    unfold SECTION_ENDINGS, set. rewrite search_suffix
      by (eapply Forall_impl; [exact Hitem|]; now intros c [? _]).
    unfold section_like, SECTION_SUFFIXES.
    destruct (_ && _); [now rewrite <- app_assoc | reflexivity].
Qed.

Lemma plain_items_listed (items : list str) :
  Forall plain_item items ->
  List.map Ustr.strip
    (List.filter (fun s => Ustr.truthy (Ustr.strip s))
                 (Ustr.split (ch "、") (join_names (ch "、") items)))
  = items.
Proof.
  intros H. destruct items as [|item items]; [reflexivity|].
  rewrite split_join_names; [|discriminate|].
  - induction H as [|i l [Hne Hi] _ IH]; [reflexivity|]. cbn [List.filter].
    rewrite strip_id by (eapply Forall_impl; [exact Hi|]; now intros c [? _]).
    apply truthy_true in Hne. rewrite Hne. cbn [List.map].
    rewrite IH. f_equal.
    apply strip_id. eapply Forall_impl; [exact Hi|]. now intros c [? _].
  - eapply Forall_impl; [exact H|]. intros i [_ Hi].
    eapply Forall_impl; [exact Hi|]. now intros c (_ & _ & ?).
Qed.

(** X15.  From a bracketed list of plain items the sections are exactly
    the items of at least two characters that end in one of 課室班係官,
    in the order of the list. *)
Theorem sections_of_items (items : list str) :
  Forall plain_item items ->
  extract_bureaus_and_sections (join_names (ch "、") items)
  = List.filter section_like items.
Proof.
  intros H. unfold extract_bureaus_and_sections.
  rewrite (plain_items_listed _ H). now rewrite sections_of_plain_items.
Qed.

Lemma sections_of_items_witness :
  extract_bureaus_and_sections (u "官房長、総務課、課、儀典長、公文書監理官")
  = [u "総務課"; u "公文書監理官"].
Proof.
  apply (sections_of_items
           [u "官房長"; u "総務課"; u "課"; u "儀典長"; u "公文書監理官"]).
  vm_compute. repeat constructor; discriminate.
Defined.

(** ** What the rules capture *)

Lemma ends_in_app (cs p s : str) : ends_in cs s -> ends_in cs (p ++ s).
Proof.
  intros (body & x & -> & Hx). exists (p ++ body), x.
  now rewrite app_assoc.
Qed.

Lemma ends_in_nonempty (cs s : str) : ends_in cs s -> s <> [].
Proof. intros (body & x & -> & _). now destruct body. Qed.

Lemma no_space_sublist (a b : str) : sublist a b -> no_space b -> no_space a.
Proof. apply forall_sublist. Qed.

Lemma strip_count_sublist (s : str) : sublist (strip_count s) s.
Proof.
  unfold strip_count. etransitivity; [apply strip_sublist | apply sub_go_sublist].
Qed.

(** The bracket rule reads a line as bureau［sections］rest. *)
Lemma bracketed_groups (norm : str) (m : mobj) :
  match_ BRACKETED norm = Some m ->
  exists g1 g2 g3 t,
    groups m = [g1; g2; g3]
    /\ norm = g1 ++ ch "［" :: g2 ++ ch "］" :: g3 ++ t
    /\ g1 <> [] /\ g2 <> [] /\ (t = [] \/ t = [NL]).
Proof.
  intros H. apply match_sound in H as (t & Heq & Hd).
  unfold BRACKETED, lit, plus_lazy, star in Hd. cbn [denote] in Hd.
  destruct Hd as (p0 & r0 & n0 & m0 & Hp0 & Hn0 & (-> & _ & ->) & Hd).
  destruct Hd as (g1 & r1 & n1 & m1 & Hp1 & Hn1 & (k1 & (_ & Hlen1 & _ & ->) & ->) & Hd).
  destruct Hd as (b1 & r2 & n2 & m2 & Hp2 & Hn2 & ((c1 & -> & Hc1) & ->) & Hd).
  destruct Hd as (g2 & r3 & n3 & m3 & Hp3 & Hn3 & (k2 & (_ & Hlen2 & _ & ->) & ->) & Hd).
  destruct Hd as (b2 & r4 & n4 & m4 & Hp4 & Hn4 & ((c2 & -> & Hc2) & ->) & Hd).
  destruct Hd as (g3 & r5 & n5 & m5 & Hp5 & Hn5 & (k3 & (_ & _ & _ & ->) & ->)
                  & (-> & Ht & ->)).
  cbn [cls_match] in Hc1, Hc2. apply N.eqb_eq in Hc1, Hc2. subst c1 c2.
  exists g1, g2, g3, t.
  rewrite Heq, Hp0, Hp1, Hp2, Hp3, Hp4, Hp5, Hn0, Hn1, Hn2, Hn3, Hn4, Hn5.
  simpl. rewrite !app_nil_r.
  repeat split; try assumption.
  - rewrite <- !app_assoc. simpl. rewrite <- !app_assoc. reflexivity.
  - intros ->. simpl in Hlen1. lia.
  - intros ->. simpl in Hlen2. lia.
Qed.

Lemma numbered_ministry (norm : str) (m : mobj) :
  match_ MINISTRY_NUMBERED norm = Some m ->
  ends_in MINISTRY_SUFFIXES (group m 1).
Proof.
  intros H. apply match_sound in H as (t & Heq & Hd).
  unfold MINISTRY_NUMBERED, plus, between, set in Hd. cbn [denote] in Hd.
  destruct Hd as (p0 & r0 & n0 & m0 & Hp0 & Hn0 & (-> & _ & ->) & Hd).
  destruct Hd as (d & r1 & n1 & m1 & Hp1 & Hn1 & (_ & _ & _ & ->) & Hd).
  destruct Hd as (g & r2 & n2 & m2 & Hp2 & Hn2 & (k & Hg & ->) & (-> & _ & ->)).
  destruct Hg as (body & e & n3 & m3 & -> & -> & (_ & _ & _ & ->) & ((c & -> & Hc) & ->)).
  unfold group. rewrite Hn0, Hn1, Hn2. simpl.
  exists body, c. split; [reflexivity | exact Hc].
Qed.

Lemma bare_ministry (norm : str) :
  no_space norm ->
  match_ MINISTRY_BARE norm <> None ->
  ends_in MINISTRY_SUFFIXES norm.
Proof.
  intros Hs H. destruct (match_ MINISTRY_BARE norm) as [m|] eqn:Hm; [|congruence].
  apply match_sound in Hm as (t & Heq & Hd).
  unfold MINISTRY_BARE, between, set in Hd. cbn [denote] in Hd.
  destruct Hd as (p0 & r0 & n0 & m0 & Hp0 & Hn0 & (-> & _ & ->) & Hd).
  destruct Hd as (body & r1 & n1 & m1 & Hp1 & Hn1 & _ & Hd).
  destruct Hd as (e & r2 & n2 & m2 & Hp2 & Hn2 & ((c & -> & Hc) & _) & (-> & Ht & _)).
  rewrite Hp0, Hp1, Hp2 in Heq. simpl in Heq.
  destruct Ht as [-> | ->].
  - exists body, c. rewrite app_nil_r in Heq. now split.
  - exfalso. rewrite Heq in Hs. apply Forall_app in Hs as [_ Hs].
    inversion Hs. discriminate.
Qed.

Lemma category_text (norm : str) (m : mobj) :
  no_space norm ->
  match_ CATEGORY_LINE norm = Some m ->
  search CATEGORY_END (group m 1) <> None ->
  ends_in CATEGORY_SUFFIXES (group m 1).
Proof.
  intros Hs H Hend. apply match_sound in H as (t & Heq & Hd).
  unfold CATEGORY_LINE, between in Hd. cbn [denote] in Hd.
  destruct Hd as (p0 & r0 & n0 & m0 & Hp0 & Hn0 & (-> & _ & ->) & Hd).
  destruct Hd as (a & r1 & n1 & m1 & Hp1 & Hn1 & (_ & ->) & Hd).
  destruct Hd as (g & r2 & n2 & m2 & Hp2 & Hn2 & (k & (_ & _ & _ & ->) & ->) & _).
  unfold group in *. rewrite Hn0, Hn1, Hn2 in *. simpl in *.
  apply suffix_found; [|exact Hend].
  intros x. apply no_space_last.
  rewrite Heq, Hp0, Hp1, Hp2 in Hs. simpl in Hs.
  apply Forall_app in Hs as [Hs _]. apply Forall_app in Hs as [_ Hs].
  now apply Forall_app in Hs as [Hs _].
Qed.

Lemma numbered_name (name : str) :
  no_space name ->
  strip_count name <> name ->
  search ORG_ENDS (strip_count name) <> None ->
  ends_in ORG_SUFFIXES (strip_count name) /\ ends_in_digit name.
Proof.
  intros Hs Hne Horg. split.
  - apply suffix_found; [|exact Horg]. intros x. apply no_space_last.
    eapply no_space_sublist; [apply strip_count_sublist | exact Hs].
  - destruct (digit_split name) as (body & digits & -> & Hd & Hend).
    destruct (count_suffix_parts body digits Hs Hd Hend) as [Hb _].
    rewrite Hb in Hne.
    destruct digits as [|d digits] using rev_ind;
      [now rewrite app_nil_r in Hne|].
    exists (body ++ digits), d. rewrite app_assoc. split; [reflexivity|].
    apply Forall_app in Hd as [_ Hd]. now inversion Hd.
Qed.

(** ** What every emitted row satisfies *)

Ltac fields :=
  cbn [rows current_ministry current_category prev_bureau_base prev_bureau_full
       last_prefixes last_count_str ministry category bureau section
       expanded_from row_of emit set_prev set_last set_ministry set_category
       start_state].

Ltac bind := cbn [mbind result_bind mret result_ret].

Lemma own_row_ok (st : State) (name : str) :
  state_ok st -> name <> [] -> row_ok (row_of st name [] []).
Proof.
  intros [_ Hm Hc _] Hn. constructor; fields; auto.
Qed.

Lemma section_row_ok (st : State) (b sec : str) :
  state_ok st -> b <> [] ->
  ends_in SECTION_SUFFIXES sec -> (2 <= length sec)%nat ->
  row_ok (row_of st b sec []).
Proof.
  intros [_ Hm Hc _] Hb Hs Hl. constructor; fields; auto.
Qed.

Lemma expanded_row_ok (st : State) (prefix base from : str) :
  state_ok st -> ends_in ORG_SUFFIXES base -> ends_in_digit from ->
  row_ok (row_of st (prefix ++ base) [] from).
Proof.
  intros [_ Hm Hc _] Hb Hf. constructor; fields; auto.
  - intros H. apply app_eq_nil in H as [_ ->]. now apply ends_in_nonempty in Hb.
  - right. repeat split; [now apply ends_in_app | assumption].
Qed.

Lemma emit_state_ok (st : State) (new : list Row) :
  state_ok st -> Forall row_ok new -> state_ok (emit st new).
Proof.
  intros [Hr Hm Hc Hp] Hn. constructor; fields; auto.
  apply Forall_app. now split.
Qed.

Lemma set_prev_state_ok (st : State) (base full : str) :
  state_ok st ->
  base = [] \/ (ends_in ORG_SUFFIXES base /\ ends_in_digit full) ->
  state_ok (set_prev st base full).
Proof. intros [Hr Hm Hc _] Hp. constructor; fields; auto. Qed.

Lemma set_last_state_ok (st : State) (prefixes : list str) (count : str) :
  state_ok st -> state_ok (set_last st prefixes count).
Proof. intros [Hr Hm Hc Hp]. constructor; fields; auto. Qed.

Lemma sibling_check_state_ok (st : State) (cs name : str) (nia : bool) :
  state_ok st -> ends_in ORG_SUFFIXES cs -> ends_in_digit name ->
  state_ok (sibling_check st cs name nia).
Proof.
  intros Hst Hcs Hname. unfold sibling_check.
  destruct (_ && _ && _ && _).
  - apply set_last_state_ok, emit_state_ok; [assumption|].
    apply Forall_forall. intros r Hr.
    apply list_elem_of_In, in_map_iff in Hr as (prefix & <- & _).
    now apply expanded_row_ok.
  - apply set_prev_state_ok; auto.
Qed.

Lemma count_suffix_check_state_ok (st : State) (name : str) (nia : bool) :
  state_ok st -> no_space name -> state_ok (count_suffix_check st name nia).
Proof.
  intros Hst Hs. unfold count_suffix_check.
  destruct (negb _ && _) eqn:Hc; [|assumption].
  apply andb_true_iff in Hc as [Hne Horg].
  apply negb_true_iff, ustr_eqb_neq in Hne.
  destruct (numbered_name name Hs Hne) as [Hb Hd];
    [now destruct (search ORG_ENDS (strip_count name))|].
  now apply sibling_check_state_ok.
Qed.

Lemma bracket_rule_state_ok (st : State) (norm : str) (m : mobj) (nia : bool) :
  no_space norm -> match_ BRACKETED norm = Some m ->
  state_ok st -> state_ok (bracket_rule st m nia).
Proof.
  intros Hs Hm Hst.
  destruct (bracketed_groups _ _ Hm) as (g1 & g2 & g3 & t & Hg & Hnorm & Hg1 & _).
  assert (Hs1 : no_space g1)
    by (rewrite Hnorm in Hs; now apply Forall_app in Hs as [? _]).
  unfold bracket_rule, group. rewrite Hg. cbn [nth Nat.pred].
  rewrite (strip_id g1 Hs1).
  set (st1 := count_suffix_check st g1 nia).
  assert (Hst1 : state_ok st1) by now apply count_suffix_check_state_ok.
  set (st2 := if _ && _ && _ then _ else _).
  assert (Hst2 : state_ok st2).
  { unfold st2. destruct (_ && _ && _); [|assumption].
    apply emit_state_ok; [assumption|]. constructor; [|constructor].
    now apply own_row_ok. }
  apply emit_state_ok; [assumption|].
  apply Forall_forall. intros r Hr.
  apply list_elem_of_In, in_map_iff in Hr as (sec & <- & Hsec).
  pose proof (sections_checked g2) as Hall. rewrite Forall_forall in Hall.
  apply list_elem_of_In, Hall in Hsec as (He & Hl & _).
  now apply section_row_ok.
Qed.

Lemma bare_rule_state_ok (st : State) (norm : str) (nia : bool) :
  no_space norm -> norm <> [] ->
  state_ok st -> state_ok (bare_rule st norm nia).
Proof.
  intros Hs Hne Hst. unfold bare_rule. destruct (bare_bureau norm); [|assumption].
  pose proof (count_suffix_check_state_ok st norm nia Hst Hs) as Hst1.
  apply emit_state_ok; [assumption|]. constructor; [|constructor].
  now apply own_row_ok.
Qed.

Lemma header_rules_state_ok (st st' : State) (norm : str) :
  no_space norm -> state_ok st -> prev_bureau_base st = [] ->
  header_rules st norm = Some st' -> state_ok st'.
Proof.
  intros Hs [Hr Hm Hc Hp] Hprev. unfold header_rules.
  destruct (match_ MINISTRY_NUMBERED norm) as [m|] eqn:Hnum.
  - destruct (negb _); intros [= <-]; constructor; fields; auto.
    right. eapply numbered_ministry; eassumption.
  - destruct (_ && _ && _ && _) eqn:Hbare.
    + intros [= <-]. constructor; fields; auto. right.
      apply bare_ministry; [assumption|].
      apply andb_true_iff in Hbare as [Hbare _].
      apply andb_true_iff in Hbare as [Hbare _].
      apply andb_true_iff in Hbare as [Hbare _].
      now destruct (match_ MINISTRY_BARE norm).
    + destruct (match_ CATEGORY_LINE norm) as [cat_m|] eqn:Hcat; [|discriminate].
      destruct (is_some (search CATEGORY_END (group cat_m 1))) eqn:Hend;
        [|discriminate].
      intros [= <-]. constructor; fields; auto. right.
      eapply category_text; [eassumption | eassumption|].
      now destruct (search CATEGORY_END (group cat_m 1)).
Qed.

Lemma classify_state_ok (st st' : State) (norm : str) (nia : bool) :
  no_space norm -> norm <> [] -> state_ok st ->
  classify st norm nia = Ok st' -> state_ok st'.
Proof.
  intros Hs Hne Hst. destruct (angle_fires st norm) eqn:Hq.
  - unfold angle_fires in Hq. unfold classify.
    destruct (match_ ANGLE_BLOCK norm) as [m|]; [|discriminate].
    destruct (Ustr.truthy (prev_bureau_base st)) eqn:Hb; [|discriminate].
    destruct (expand_angle_content (group m 1)) as [prefixes|e]; bind; [|discriminate].
    intros [= <-]. apply truthy_true in Hb.
    destruct (pending_ok st Hst) as [? | [Hbase Hfull]]; [congruence|].
    apply set_prev_state_ok; [|now left].
    apply emit_state_ok; [now apply set_last_state_ok|].
    apply Forall_forall. intros r Hr.
    apply list_elem_of_In, in_map_iff in Hr as (prefix & <- & _).
    now apply expanded_row_ok.
  - rewrite classify_without_expansion by assumption. intros [= <-].
    assert (Hclear : state_ok (set_prev st [] []))
      by (apply set_prev_state_ok; auto).
    destruct (header_rules (set_prev st [] []) norm) as [st1|] eqn:Hh.
    + eapply header_rules_state_ok; [exact Hs | exact Hclear | reflexivity | exact Hh].
    + destruct (match_ BRACKETED norm) as [m|] eqn:Hm.
      * eapply bracket_rule_state_ok; eassumption.
      * now apply bare_rule_state_ok.
Qed.

Lemma normalize_line_no_space (line : str) : no_space (normalize_line line).
Proof.
  eapply forall_sublist; [apply normalize_line_sublist_filter|].
  apply filter_not_space.
Qed.

Lemma scan_blocks_state_ok (next_page : option str) (bs : list str) :
  forall st st',
    state_ok st -> scan_blocks next_page st bs = Ok st' -> state_ok st'.
Proof.
  induction bs as [|b bs IH]; intros st st' Hst; cbn [scan_blocks].
  - now intros [= <-].
  - destruct (Ustr.truthy (normalize_line b)) eqn:Hn; cbn [negb]; [|now apply IH].
    destruct (lookahead next_page bs) as [nn|e]; bind; [|discriminate].
    destruct (classify st (normalize_line b) _) as [st1|e] eqn:Hc; bind; [|discriminate].
    apply IH. eapply classify_state_ok; [apply normalize_line_no_space | | exact Hst | exact Hc].
    now apply truthy_true.
Qed.

Lemma scan_pages_state_ok (pages : list str) :
  forall st st', state_ok st -> scan_pages st pages = Ok st' -> state_ok st'.
Proof.
  induction pages as [|p pages IH]; intros st st' Hst; cbn [scan_pages].
  - now intros [= <-].
  - destruct (join_continuation_lines p) as [bs|e]; bind; [|discriminate].
    destruct (scan_blocks (head pages) st bs) as [st1|e] eqn:Hb; bind; [|discriminate].
    apply IH. eapply scan_blocks_state_ok; eassumption.
Qed.

Lemma start_state_ok : state_ok start_state.
Proof. constructor; fields; auto. Qed.

Lemma parse_pages_rows_ok (raw_pages : list str) :
  exists rs, parse_pages raw_pages = Ok rs /\ Forall row_ok rs.
Proof.
  unfold parse_pages.
  destruct (scan_pages_ok (merge_pages raw_pages) start_state) as [st Hst].
  rewrite Hst. bind. eexists. split; [reflexivity|].
  apply rows_ok. eapply scan_pages_state_ok; [apply start_state_ok | exact Hst].
Qed.

(** ** The rows of a whole run *)

(** X16.  In the rows of any run, a ministry is empty (no header read
    yet) or ends in one of 省庁院府, and a category is empty or ends in
    one of 局部会機関. *)
Theorem rows_context_suffixes (raw_pages : list str) :
  exists rs,
    parse_pages raw_pages = Ok rs
    /\ Forall (fun r =>
                 (ministry r = [] \/ ends_in MINISTRY_SUFFIXES (ministry r))
                 /\ (category r = [] \/ ends_in CATEGORY_SUFFIXES (category r)))
              rs.
Proof.
  destruct (parse_pages_rows_ok raw_pages) as (rs & Hrs & Hok).
  exists rs. split; [exact Hrs|].
  eapply Forall_impl; [exact Hok|]. intros r [Hm Hc _ _ _]. now split.
Qed.

(** X17.  In the rows of any run the bureau is never empty, and a row
    with a section is not an expanded row; its section has at least two
    characters and ends in one of 課室班係官. *)
Theorem rows_bureau_and_section (raw_pages : list str) :
  exists rs,
    parse_pages raw_pages = Ok rs
    /\ Forall (fun r =>
                 bureau r <> []
                 /\ (section r = []
                     \/ (expanded_from r = []
                         /\ ends_in SECTION_SUFFIXES (section r)
                         /\ (2 <= length (section r))%nat)))
              rs.
Proof.
  destruct (parse_pages_rows_ok raw_pages) as (rs & Hrs & Hok).
  exists rs. split; [exact Hrs|].
  eapply Forall_impl; [exact Hok|]. intros r [_ _ Hb Hs _]. now split.
Qed.

(** X18.  In the rows of any run, an expanded row (non-empty
    [expanded_from]) has no section, its bureau ends in one of
    局部所署台庁会校区, and the name it was expanded from ends in a count
    digit. *)
Theorem rows_expanded (raw_pages : list str) :
  exists rs,
    parse_pages raw_pages = Ok rs
    /\ Forall (fun r =>
                 expanded_from r <> [] ->
                 section r = []
                 /\ ends_in ORG_SUFFIXES (bureau r)
                 /\ ends_in_digit (expanded_from r))
              rs.
Proof.
  destruct (parse_pages_rows_ok raw_pages) as (rs & Hrs & Hok).
  exists rs. split; [exact Hrs|].
  eapply Forall_impl; [exact Hok|]. intros r [_ _ _ _ [He | He]] Hne;
    [congruence | exact He].
Qed.

Lemma startswith_shorter (p s t : str) :
  Ustr.startswith p s = true -> Ustr.startswith p (s ++ t) = true.
Proof.
  rewrite !startswith_spec. intros [rest ->]. exists (rest ++ t).
  now rewrite app_assoc.
Qed.

Lemma startswith_regional (c x : N) (b : str) :
  x <> ch "方" ->
  Ustr.startswith REGIONAL (c :: b ++ [x]) = Ustr.startswith REGIONAL (c :: b).
Proof.
  intros Hx. change REGIONAL with [ch "地"; ch "方"].
  destruct b as [|c' b]; cbn [Ustr.startswith app].
  - apply N.eqb_neq in Hx. rewrite N.eqb_sym in Hx. rewrite Hx.
    cbn [andb]. reflexivity.
  - reflexivity.
Qed.

Lemma remove_keeps_last (x : N) (body : str) :
  x <> ch "地" -> x <> ch "方" ->
  forall skip,
    (skip <= length body)%nat ->
    Ustr.remove_go REGIONAL skip (body ++ [x])
    = Ustr.remove_go REGIONAL skip body ++ [x].
Proof.
  intros H1 H2. induction body as [|c body IH]; intros skip Hskip.
  - simpl in Hskip. replace skip with O by lia.
    change REGIONAL with [ch "地"; ch "方"].
    cbn [app Ustr.remove_go Ustr.startswith].
    apply N.eqb_neq in H1. rewrite N.eqb_sym in H1. now rewrite H1.
  - rewrite <- app_comm_cons. cbn [Ustr.remove_go]. destruct skip as [|k].
    + rewrite startswith_regional by assumption.
      destruct (Ustr.startswith REGIONAL (c :: body)) eqn:Hs.
      * apply IH. destruct body; [|simpl; lia].
        change REGIONAL with [ch "地"; ch "方"] in Hs.
        cbn [Ustr.startswith] in Hs. rewrite andb_false_r in Hs. discriminate.
      * rewrite IH by lia. reflexivity.
    + apply IH. simpl in Hskip. lia.
Qed.

Lemma org_suffix_not_regional (x : N) :
  Ustr.mem x ORG_SUFFIXES = true -> x <> ch "地" /\ x <> ch "方".
Proof.
  unfold Ustr.mem, ORG_SUFFIXES. intros H.
  apply existsb_exists in H as (y & Hy & Hxy). apply N.eqb_eq in Hxy. subst y.
  vm_compute in Hy. repeat (destruct Hy as [<- | Hy]; [split; discriminate|]).
  contradiction.
Qed.

Lemma alias_ends_in_org (e : str -> bool) (r : Row) :
  row_ok r -> alias_of e r = [] \/ ends_in ORG_SUFFIXES (alias_of e r).
Proof.
  intros Hr. rewrite alias_of_cases.
  destruct (Ustr.truthy (expanded_from r)) eqn:Hexp; [|now left].
  destruct (_ && _ && _ && _); [|now left]. right.
  apply truthy_true in Hexp.
  destruct (expanded_ok r Hr) as [? | (_ & (body & x & Hb & Hx) & _)]; [congruence|].
  destruct (org_suffix_not_regional x Hx) as [H1 H2].
  rewrite Hb. unfold Ustr.remove. rewrite remove_keeps_last by (assumption || lia).
  now exists (Ustr.remove_go REGIONAL 0 body), x.
Qed.

(** X19.  In the published records of any run the ministry ends in one of
    省庁院府, and an alias, when there is one, still ends in one of
    局部所署台庁会校区. *)
Theorem published_names (raw_pages : list str) (_exists_in_db : str -> bool) :
  exists out,
    recover raw_pages _exists_in_db = Ok out
    /\ Forall (fun o =>
                 ends_in MINISTRY_SUFFIXES (ministry (row o))
                 /\ (bureau_alias o = []
                     \/ ends_in ORG_SUFFIXES (bureau_alias o)))
              out.
Proof.
  unfold recover.
  destruct (parse_pages_rows_ok raw_pages) as (rs & -> & Hok). bind.
  eexists. split; [reflexivity|].
  apply Forall_forall. intros o Ho.
  unfold publish in Ho. apply list_elem_of_In, in_map_iff in Ho as (r & <- & Hr).
  apply list_elem_of_In in Hr. cbn [row bureau_alias with_alias].
  assert (Hrow : row_ok r).
  { rewrite Forall_forall in Hok. apply Hok.
    eapply elem_of_sublist; [exact Hr | apply dedup_sublist]. }
  split; [|now apply alias_ends_in_org].
  apply dedup_kept in Hr as [_ Hm].
  destruct (ministry_ok r Hrow); [congruence | assumption].
Qed.

(** ** More on the classifier *)

(** X20.  When an angle-bracket block comes next, a numbered bureau line
    never reuses the cached prefixes, whatever their count: it emits its
    own rows only and is stashed for the expansion. *)
Theorem template_ahead_blocks_reuse (st : State) (norm name : str)
        (secs : list str) :
  bureau_line norm name secs ->
  angle_fires st norm = false ->
  numbered name ->
  exists st',
    classify st norm true = Ok st'
    /\ rows st' = rows st ++ own_rows st name secs
    /\ prev_bureau_base st' = strip_count name
    /\ prev_bureau_full st' = name
    /\ last_prefixes st' = last_prefixes st
    /\ last_count_str st' = last_count_str st.
Proof.
  intros Hline Hq Hnum.
  rewrite (classify_bureau_line _ _ _ _ _ Hline Hq), numbered_check by assumption.
  unfold sibling_check. cbn [negb andb].
  eexists. split; [reflexivity|]. repeat split.
Qed.

Lemma template_ahead_blocks_reuse_witness :
  exists st',
    classify sibling_demo (u "管区警察局６") true = Ok st'
    /\ List.map bureau (rows st') = [u "管区警察局６"]
    /\ prev_bureau_base st' = u "管区警察局"
    /\ last_count_str st' = u "６".
Proof.
  destruct (template_ahead_blocks_reuse sibling_demo (u "管区警察局６")
              (u "管区警察局６") [])
    as (st' & Hc & Hrows & Hbase & _ & _ & Hcount).
  - now apply without_sections.
  - reflexivity.
  - split; vm_compute; discriminate.
  - exists st'. rewrite Hrows, Hbase, Hcount. repeat split. exact Hc.
Defined.

Lemma sibling_check_rows (st : State) (cs name : str) (nia : bool) :
  exists new,
    rows (sibling_check st cs name nia) = rows st ++ new
    /\ Forall (fun r => ministry r = current_ministry st
                        /\ category r = current_category st) new.
Proof.
  unfold sibling_check. destruct (_ && _ && _ && _).
  - eexists. split; [reflexivity|]. apply Forall_forall. intros r Hr.
    apply list_elem_of_In, in_map_iff in Hr as (p & <- & _). now split.
  - exists []. split; [fields; now rewrite app_nil_r | constructor].
Qed.

Lemma count_suffix_check_rows (st : State) (name : str) (nia : bool) :
  exists new,
    rows (count_suffix_check st name nia) = rows st ++ new
    /\ Forall (fun r => ministry r = current_ministry st
                        /\ category r = current_category st) new.
Proof.
  unfold count_suffix_check. destruct (_ && _); [apply sibling_check_rows|].
  exists []. split; [now rewrite app_nil_r | constructor].
Qed.

Lemma header_rules_rows (st st' : State) (norm : str) :
  header_rules st norm = Some st' -> rows st' = rows st.
Proof.
  unfold header_rules.
  destruct (match_ MINISTRY_NUMBERED norm).
  - destruct (negb _); intros [= <-]; reflexivity.
  - destruct (_ && _ && _ && _); [intros [= <-]; reflexivity|].
    destruct (match_ CATEGORY_LINE norm) as [cat_m|]; [|discriminate].
    destruct (is_some (search CATEGORY_END (group cat_m 1)));
      [intros [= <-]; reflexivity | discriminate].
Qed.

(** X21.  A turn of the classifier never touches the rows already
    emitted: it only appends, and what it appends carries the ministry and
    the category in force before the block (so a header line, which
    changes them, emits nothing under its own name). *)
Theorem classify_appends (st st' : State) (norm : str) (next_is_angle : bool) :
  classify st norm next_is_angle = Ok st' ->
  exists new,
    rows st' = rows st ++ new
    /\ Forall (fun r => ministry r = current_ministry st
                        /\ category r = current_category st) new
    /\ (new <> [] -> current_ministry st' = current_ministry st
                     /\ current_category st' = current_category st).
Proof.
  destruct (angle_fires st norm) eqn:Hq.
  - unfold angle_fires in Hq. unfold classify.
    destruct (match_ ANGLE_BLOCK norm) as [m|]; [|discriminate].
    destruct (Ustr.truthy (prev_bureau_base st)); [|discriminate].
    destruct (expand_angle_content (group m 1)) as [prefixes|e]; bind; [|discriminate].
    intros [= <-]. eexists. split; [reflexivity|]. split; [|now split].
    apply Forall_forall. intros r Hr.
    apply list_elem_of_In, in_map_iff in Hr as (p & <- & _). now split.
  - rewrite classify_without_expansion by assumption. intros [= <-].
    destruct (header_rules (set_prev st [] []) norm) as [st1|] eqn:Hh.
    + exists []. rewrite (header_rules_rows _ _ _ Hh). fields.
      rewrite app_nil_r. split; [reflexivity|]. split; [constructor|].
      intros H. now contradiction H.
    + destruct (match_ BRACKETED norm) as [m|].
      * unfold bracket_rule.
        destruct (count_suffix_check_rows (set_prev st [] [])
                    (Ustr.strip (group m 1)) next_is_angle) as (new & Hnew & Hall).
        destruct (count_suffix_check_context (set_prev st [] [])
                    (Ustr.strip (group m 1)) next_is_angle) as [Hmin Hcat].
        set (st1 := count_suffix_check _ _ _) in *.
        destruct (_ && _ && _); fields; rewrite Hnew; fields.
        -- eexists. rewrite <- !app_assoc. split; [reflexivity|].
           split; [|intros _; split; assumption].
           apply Forall_app. split; [exact Hall|]. constructor; [now split|].
           apply Forall_forall. intros r Hr.
           apply list_elem_of_In, in_map_iff in Hr as (p & <- & _). now split.
        -- eexists. rewrite <- !app_assoc. split; [reflexivity|].
           split; [|intros _; split; assumption].
           apply Forall_app. split; [exact Hall|].
           apply Forall_forall. intros r Hr.
           apply list_elem_of_In, in_map_iff in Hr as (p & <- & _). now split.
      * unfold bare_rule. destruct (bare_bureau norm).
        -- destruct (count_suffix_check_rows (set_prev st [] []) norm next_is_angle)
             as (new & Hnew & Hall).
           destruct (count_suffix_check_context (set_prev st [] []) norm next_is_angle)
             as [Hmin Hcat].
           fields. rewrite Hnew. fields. eexists. rewrite <- app_assoc.
           split; [reflexivity|]. split; [|intros _; split; assumption].
           apply Forall_app. split; [exact Hall|]. constructor; [now split | constructor].
        -- exists []. fields. rewrite app_nil_r.
           split; [reflexivity|]. split; [constructor|].
           intros H. now contradiction H.
Qed.

Lemma classify_appends_witness :
  exists new,
    rows sibling_demo ++ new
    = [ row_of sibling_demo (u "東北管区警察局") [] (u "管区警察局６");
        row_of sibling_demo (u "関東管区警察局") [] (u "管区警察局６");
        row_of sibling_demo (u "管区警察局６") [] [] ]
    /\ Forall (fun r => ministry r = u "警察庁") new.
Proof.
  destruct (classify_appends sibling_demo
              (emit (set_last sibling_demo (last_prefixes sibling_demo) [])
                    [ row_of sibling_demo (u "東北管区警察局") [] (u "管区警察局６");
                      row_of sibling_demo (u "関東管区警察局") [] (u "管区警察局６");
                      row_of sibling_demo (u "管区警察局６") [] [] ])
              (u "管区警察局６") false) as (new & Hrows & Hall & _);
    [vm_compute; reflexivity|].
  exists new. split; [symmetry; exact Hrows|].
  eapply Forall_impl; [exact Hall|]. now intros r [-> _].
Defined.
